(** * sitemap-content-generator: a shallow embedding of [src/scraper.js]

    The development follows the source file top to bottom:
    - [JsString]: the string primitives of the JavaScript runtime that the
      scraper calls ([split], [join], [trim], [endsWith], [toUpperCase], ...)
      and the regular-expression replacements it performs, each written as
      the string function the expression denotes;
    - [Classifier]: [isValidKeyword] and the URL pipeline inside
      [processSitemap] (lines 56-83 of the source);
    - [Processor]: [generateArticle] and [processSitemap] with their retry
      loops, over an explicit world of external answers and an event trace;
    - [Scheduler]: the dispatch loop and the summary step of [main];
    - [Vocabulary]: the predicates and the sample data the statements use.

    Strings are sequences of code units.  The model carries the code units
    that [ascii] offers, 0 to 255.  White space is what [trim] strips
    among them, the no-break space included.  Case mapping is that of
    the ASCII letters, so the text computed for a URL is the text the
    code computes when the URL consists of ASCII code units; statements
    about that text are made for such URLs ([isAscii]).  Statements that
    only use the structure of the pipeline hold for every URL. *)

From stdpp Require Import gmap.
From Stdlib Require Import String Ascii List ZArith Lia Bool Arith DecimalString.
Import ListNotations.

Local Open Scope string_scope.
Local Open Scope list_scope.

(* ===================================================================== *)
(** ** JavaScript string primitives                                       *)
(* ===================================================================== *)

Module JsString.

(** [String.prototype.toUpperCase] / [toLowerCase] on one code unit. *)
Definition isUpper (c : ascii) : bool :=
  let n := nat_of_ascii c in (65 <=? n)%nat && (n <=? 90)%nat.

Definition isLower (c : ascii) : bool :=
  let n := nat_of_ascii c in (97 <=? n)%nat && (n <=? 122)%nat.

Definition isDigit (c : ascii) : bool :=
  let n := nat_of_ascii c in (48 <=? n)%nat && (n <=? 57)%nat.

Definition upperChar (c : ascii) : ascii :=
  if isLower c then ascii_of_nat (nat_of_ascii c - 32) else c.

Definition lowerChar (c : ascii) : ascii :=
  if isUpper c then ascii_of_nat (nat_of_ascii c + 32) else c.

Fixpoint mapChars (f : ascii -> ascii) (s : string) : string :=
  match s with
  | EmptyString => EmptyString
  | String c r => String (f c) (mapChars f r)
  end.

Definition toUpperCase : string -> string := mapChars upperChar.
Definition toLowerCase : string -> string := mapChars lowerChar.

(** White space and line terminators stripped by [trim]: tab, line
    feed, vertical tab, form feed, carriage return, space and, beyond
    ASCII, the no-break space U+00A0. *)
Definition isWhiteSpace (c : ascii) : bool :=
  match N_of_ascii c with
  | 9 | 10 | 11 | 12 | 13 | 32 | 160 => true
  | _ => false
  end%N.

Fixpoint trimStart (s : string) : string :=
  match s with
  | EmptyString => EmptyString
  | String c r => if isWhiteSpace c then trimStart r else s
  end.

Fixpoint trimEnd (s : string) : string :=
  match s with
  | EmptyString => EmptyString
  | String c r =>
      match trimEnd r with
      | EmptyString => if isWhiteSpace c then EmptyString else String c EmptyString
      | r' => String c r'
      end
  end.

Definition trim (s : string) : string := trimEnd (trimStart s).

(** A string used as a condition is true when it is not empty. *)
Definition truthy (s : string) : bool :=
  match s with EmptyString => false | _ => true end.

(** [s.split(sep)] for a one-character separator: always at least one
    piece, empty pieces kept. *)
Fixpoint split (sep : ascii) (s : string) : list string :=
  match s with
  | EmptyString => [EmptyString]
  | String c r =>
      if Ascii.eqb c sep then EmptyString :: split sep r
      else match split sep r with
           | [] => [String c EmptyString]
           | w :: ws => String c w :: ws
           end
  end.

(** [l.join(sep)]. *)
Fixpoint join (sep : string) (l : list string) : string :=
  match l with
  | [] => EmptyString
  | [w] => w
  | w :: ws => w ++ sep ++ join sep ws
  end.

(** [s.startsWith(p)]. *)
Fixpoint startsWith (s p : string) {struct p} : bool :=
  match p, s with
  | EmptyString, _ => true
  | String _ _, EmptyString => false
  | String a p', String b s' => Ascii.eqb a b && startsWith s' p'
  end.

Fixpoint drop (n : nat) (s : string) : string :=
  match n, s with
  | O, _ => s
  | S _, EmptyString => EmptyString
  | S n', String _ r => drop n' r
  end.

Fixpoint take (n : nat) (s : string) : string :=
  match n, s with
  | O, _ => EmptyString
  | S _, EmptyString => EmptyString
  | S n', String c r => String c (take n' r)
  end.

(** [s.endsWith(p)]: the last [p.length] code units of [s] are [p]. *)
Definition endsWith (s p : string) : bool :=
  (String.length p <=? String.length s)%nat
  && String.eqb (drop (String.length s - String.length p) s) p.

(** [s.charAt(0)] and [s.slice(1)]. *)
Definition charAt0 (s : string) : string :=
  match s with
  | EmptyString => EmptyString
  | String c _ => String c EmptyString
  end.

Definition slice1 (s : string) : string :=
  match s with
  | EmptyString => EmptyString
  | String _ r => r
  end.

(** [s.replace(/-/g, ' ')] and the like: every [a] becomes [b]. *)
Definition replaceChar (a b : ascii) : string -> string :=
  mapChars (fun c => if Ascii.eqb c a then b else c).

(** Case-insensitive match of a literal at the start of [s]: the [i] flag
    compares canonical (upper-cased) code units. *)
Fixpoint matchesAtCI (p s : string) : bool :=
  match p, s with
  | EmptyString, _ => true
  | String _ _, EmptyString => false
  | String a p', String b s' =>
      Ascii.eqb (upperChar a) (upperChar b) && matchesAtCI p' s'
  end.


(** [/(a1|a2|...)/i.test(s)]: some position where some alternative
    matches. *)
Fixpoint testAltsCI (alts : list string) (s : string) : bool :=
  existsb (fun a => matchesAtCI a s) alts ||
  match s with
  | EmptyString => false
  | String _ r => testAltsCI alts r
  end.

(** [s.replace(/^p/, '')] for a literal [p]. *)
Definition stripPrefix (p s : string) : option string :=
  if startsWith s p then Some (drop (String.length p) s) else None.

(** [s.replace(/p$/, '')] for a literal [p]. *)
Definition stripSuffix (p s : string) : option string :=
  if endsWith s p then Some (take (String.length s - String.length p) s)
  else None.

(** The longest run of code units other than [c] at the start of [s] is
    removed: what a greedy [[^c]*] consumes. *)
Fixpoint skipNot (c : ascii) (s : string) : string :=
  match s with
  | EmptyString => EmptyString
  | String a r => if Ascii.eqb a c then s else skipNot c r
  end.

End JsString.

(* ===================================================================== *)
(** ** The URL classifier of [processSitemap]                             *)
(* ===================================================================== *)

Module Classifier.
Import JsString.

(** [function isValidKeyword(keyword)]: at least two words once the
    pieces between spaces that trim to nothing are dropped. *)
Definition isValidKeyword (keyword : string) : bool :=
  let words := filter (fun word => truthy (trim word)) (split " " keyword) in
  (2 <=? length words)%nat.

(** The alternation of the filter at line 58. *)
Definition blogAlternatives : list string :=
  ["blog"; "blogs"; "blogging"; "blog-post"; "blog-posts"].

(** [/(blog|blogs|blogging|blog-post|blog-posts)/i.test(url)]: the
    expression is tested against the whole [loc] value. *)
Definition blogTest (url : string) : bool :=
  testAltsCI blogAlternatives url.

(** [url.replace(/^https?:\/\/[^\/]+/, '')]: a lower-case [http://] or
    [https://] at position 0 followed by at least one code unit other
    than a slash; the greedy class runs up to the next slash. *)
Definition afterScheme (url : string) : option string :=
  match stripPrefix "https://" url with
  | Some r => Some r
  | None => stripPrefix "http://" url
  end.

Definition withoutDomain (url : string) : string :=
  match afterScheme url with
  | Some (String c r) =>
      if Ascii.eqb c "/" then url else skipNot "/" r
  | _ => url
  end.

(** [.replace(/^\/|\/$/g, '')]: one slash at the start and one at the
    end (of what is left) are removed. *)
Definition stripSlashes (s : string) : string :=
  let s1 := match stripPrefix "/" s with Some r => r | None => s end in
  match stripSuffix "/" s1 with Some r => r | None => s1 end.

(** [.replace(/\.html$|\.php$/g, '')]. *)
Definition stripExtension (s : string) : string :=
  match stripSuffix ".html" s with
  | Some r => r
  | None => match stripSuffix ".php" s with Some r => r | None => s end
  end.

Definition withoutSlashes (url : string) : string :=
  stripExtension (stripSlashes (withoutDomain url)).

(** [const words = withoutSlashes.replace(/-/g, ' ').split(' ')
      .filter(word => word.trim().length > 0)]. *)
Definition pathWords (url : string) : list string :=
  filter (fun word => (0 <? String.length (trim word))%nat)
         (split " " (replaceChar "-" " " (withoutSlashes url))).

(** [l.map((x, index) => f x index)]. *)
Fixpoint mapIndexFrom {A B : Type} (i : nat) (f : A -> nat -> B)
         (l : list A) : list B :=
  match l with
  | [] => []
  | x :: r => f x i :: mapIndexFrom (S i) f r
  end.

Definition mapIndex {A B : Type} (f : A -> nat -> B) (l : list A) : list B :=
  mapIndexFrom 0 f l.

(** The callback of [words.map] at lines 66-71. *)
Definition transformWord (words : list string) (word : string)
           (index : nat) : string :=
  if (Z.of_nat index =? Z.of_nat (length words) - 1)%Z
     && String.eqb (toLowerCase word) "nj"
  then toUpperCase word
  else toUpperCase (charAt0 word) ++ toLowerCase (slice1 word).

(** The callback of the [map] at lines 59-74. *)
Definition transformUrl (url : string) : string :=
  let words := pathWords url in
  join " " (mapIndex (transformWord words) words).

(** The accumulator of the [reduce]. *)
Record Acc : Type := mkAcc { keywords : list string; phrases : list string }.

(** The reducer at lines 76-83; [push] appends at the end. *)
Definition reducer (acc : Acc) (phrase : string) : Acc :=
  if endsWith phrase "NJ" && isValidKeyword phrase then
    mkAcc (keywords acc ++ [phrase]) (phrases acc)
  else if negb (endsWith phrase "NJ") && isValidKeyword phrase then
    mkAcc (keywords acc) (phrases acc ++ [phrase])
  else acc.

(** The chain from [.filter(url => !/.../i.test(url))] to
    [.filter(text => text.length > 0)]. *)
Definition transformedTexts (locs : list string) : list string :=
  filter (fun text => (0 <? String.length text)%nat)
         (map transformUrl
              (filter (fun url => negb (blogTest url)) locs)).

(** [const { keywords, phrases } = ... .reduce(..., { keywords: [],
    phrases: [] })]. *)
Definition classifyLocs (locs : list string) : Acc :=
  fold_left reducer (transformedTexts locs) (mkAcc [] []).

End Classifier.

(* ===================================================================== *)
(** ** [generateArticle] and [processSitemap]                             *)
(* ===================================================================== *)

Module Processor.
Import JsString Classifier.

(** A thrown [Error]; only its [message] is ever read. *)
Record JsError : Type := mkError { message : string }.

(** How an awaited computation ends. *)
Inductive Outcome (A : Type) : Type :=
| Ok (a : A)
| Thrown (e : JsError).
Arguments Ok {A} a.
Arguments Thrown {A} e.

(** What [xml2js] hands back: objects whose properties may be absent.
    [urlset = None] is a document with another root; [url = None] is a
    [urlset] without [url] children; [loc] likewise. *)
Record UrlEntry : Type := mkUrlEntry { loc : option (list string) }.
Record UrlSet : Type := mkUrlSet { url : option (list UrlEntry) }.
Record XmlResult : Type := mkXmlResult { urlset : option UrlSet }.

(** A value of [Math.random()]: the number [rnum / (rnum + rgap + 1)],
    which lies in [0, 1). *)
Record Rand : Type := mkRand { rnum : nat; rgap : nat }.

(** The collaborators of the scraper and the two constants of
    [./config].  An answer is indexed by the instant of the call. *)
Record Env : Type := mkEnv {
  RATE_LIMIT_DELAY : nat;
  MAX_WORKERS : nat;
  urlHostname : string -> option string;
  pathJoin : string -> string -> string;
  clockIso : nat -> string;
  mkdirAnswer : nat -> string -> option JsError;
  getAnswer : nat -> string -> Outcome string;
  parseAnswer : string -> Outcome XmlResult;
  writeAnswer : nat -> string -> string -> option JsError;
  randomAnswer : nat -> Rand;
  completionAnswer : nat -> string -> Outcome string
}.

(** What the process does to the outside, in order. *)
Inductive Event : Type :=
| EvMkdir (dir : string)
| EvGet (target : string)
| EvWriteFile (file content : string)
| EvCompletion (keyword : string)
| EvSleep (ms : nat)
| EvConsoleError (msg : string).

Record World : Type := mkWorld { tick : nat; trace : list Event }.

Definition emit (ev : Event) (w : World) : World :=
  mkWorld (S (tick w)) (trace w ++ [ev]).

(** Computations that read the world and may throw. *)
Definition M (A : Type) : Type := World -> Outcome A * World.

Definition ret {A : Type} (a : A) : M A := fun w => (Ok a, w).

Definition throw {A : Type} (e : JsError) : M A := fun w => (Thrown e, w).

Definition bind {A B : Type} (c : M A) (k : A -> M B) : M B :=
  fun w =>
    match c w with
    | (Ok a, w1) => k a w1
    | (Thrown e, w1) => (Thrown e, w1)
    end.

Notation "x <- c ;; k" := (bind c (fun x => k))
  (at level 100, c at next level, right associativity).
Notation "c ;;; k" := (bind c (fun _ => k))
  (at level 100, right associativity).

Definition typeError {A : Type} (msg : string) : M A :=
  throw (mkError msg).

(** [`${n}`] for a non-negative integer. *)
Definition showNat (n : nat) : string :=
  NilEmpty.string_of_uint (Nat.to_uint n).

Section WithEnv.
Variable env : Env.

(** [await new Promise(resolve => setTimeout(resolve, ms))]. *)
Definition sleep (ms : nat) : M unit :=
  fun w => (Ok tt, emit (EvSleep ms) w).

Definition consoleError (msg : string) : M unit :=
  fun w => (Ok tt, emit (EvConsoleError msg) w).

(** [function getTimestamp()]. *)
Definition getTimestamp : M string :=
  fun w =>
    (Ok (mapChars (fun c => if Ascii.eqb c ":" || Ascii.eqb c "."
                            then "-"%char else c)
                  (clockIso env (tick w))),
     mkWorld (S (tick w)) (trace w)).

Definition fsMkdir (dir : string) : M unit :=
  fun w =>
    match mkdirAnswer env (tick w) dir with
    | None => (Ok tt, emit (EvMkdir dir) w)
    | Some e => (Thrown e, emit (EvMkdir dir) w)
    end.

Definition axiosGet (target : string) : M string :=
  fun w => (getAnswer env (tick w) target, emit (EvGet target) w).

Definition parseStringPromise (data : string) : M XmlResult :=
  fun w => (parseAnswer env data, w).

Definition fsWriteFile (file content : string) : M unit :=
  fun w =>
    match writeAnswer env (tick w) file content with
    | None => (Ok tt, emit (EvWriteFile file content) w)
    | Some e => (Thrown e, emit (EvWriteFile file content) w)
    end.

(** [await Promise.all([fs.writeFile(f1, c1), fs.writeFile(f2, c2)])]:
    both writes are issued; the await throws when one of them fails. *)
Definition writeBoth (f1 c1 f2 c2 : string) : M unit :=
  fun w =>
    let w1 := emit (EvWriteFile f1 c1) w in
    let w2 := emit (EvWriteFile f2 c2) w1 in
    match writeAnswer env (tick w) f1 c1,
          writeAnswer env (tick w1) f2 c2 with
    | Some e, _ => (Thrown e, w2)
    | None, Some e => (Thrown e, w2)
    | None, None => (Ok tt, w2)
    end.

(** [Math.floor(Math.random() * n)], computed on the exact value of
    the random number: the rounding of the double product is not
    modelled. *)
Definition randomIndex (r : Rand) (n : nat) : nat :=
  (rnum r * n) / (rnum r + rgap r + 1).

Definition mathRandom : M Rand :=
  fun w => (Ok (randomAnswer env (tick w)), mkWorld (S (tick w)) (trace w)).

(** [openai.chat.completions.create({...})] followed by
    [completion.choices[0].message.content]. *)
Definition createCompletion (keyword : string) : M string :=
  fun w => (completionAnswer env (tick w) keyword,
            emit (EvCompletion keyword) w).

(** The loop shared by [processSitemap] and [generateArticle]:
    [while (attempts < maxRetries) { try { return body } catch (error)
    { attempts++; console.error(...); if (attempts === maxRetries)
    throw error; await sleep(RATE_LIMIT_DELAY * attempts) } }].
    [remaining] is [maxRetries - attempts]; leaving the loop by its
    condition returns [undefined], here [None]. *)
Fixpoint retryLoop {A : Type} (maxRetries : nat) (subject : string)
         (body : M A) (remaining attempts : nat) : M (option A) :=
  match remaining with
  | O => ret None
  | S remaining' =>
      fun w =>
        match body w with
        | (Ok a, w1) => (Ok (Some a), w1)
        | (Thrown error, w1) =>
            let attempts' := S attempts in
            (consoleError ("Attempt " ++ showNat attempts'
                           ++ " failed for " ++ subject ++ ": "
                           ++ message error) ;;;
             if (attempts' =? maxRetries)%nat then throw error
             else (sleep (RATE_LIMIT_DELAY env * attempts') ;;;
                   retryLoop maxRetries subject body
                             remaining' attempts')) w1
        end
  end.

Definition maxRetries : nat := 3.

(** The [try] block of [generateArticle]. *)
Definition generateArticleBody (keyword : string) : M string :=
  sleep (RATE_LIMIT_DELAY env) ;;;
  createCompletion keyword.

(** [async function generateArticle(keyword)]. *)
Definition generateArticle (keyword : string) : M (option string) :=
  retryLoop maxRetries keyword (generateArticleBody keyword)
            (maxRetries - 0) 0.

(** [result.urlset.url.map(urlEntry => urlEntry.loc[0])]: reading a
    property of [undefined] throws a [TypeError]; the first element
    of an empty array is [undefined], here [None]. *)
Definition firstLoc (entry : UrlEntry) : Outcome (option string) :=
  match loc entry with
  | Some (l :: _) => Ok (Some l)
  | Some [] => Ok None
  | None =>
      Thrown (mkError "Cannot read properties of undefined (reading '0')")
  end.

Fixpoint allLocs (entries : list UrlEntry) : Outcome (list (option string)) :=
  match entries with
  | [] => Ok []
  | entry :: rest =>
      match firstLoc entry with
      | Thrown e => Thrown e
      | Ok l => match allLocs rest with
                | Thrown e => Thrown e
                | Ok ls => Ok (l :: ls)
                end
      end
  end.

(** An [undefined] among the values passes the blog filter (it is
    tested as the text [undefined]) and makes [url.replace] throw in
    the [map] that follows. *)
Fixpoint definedLocs (values : list (option string)) : Outcome (list string) :=
  match values with
  | [] => Ok []
  | None :: _ =>
      Thrown (mkError "Cannot read properties of undefined (reading 'replace')")
  | Some l :: rest =>
      match definedLocs rest with
      | Thrown e => Thrown e
      | Ok ls => Ok (l :: ls)
      end
  end.

Definition resultLocs (result : XmlResult) : Outcome (list string) :=
  match urlset result with
  | None =>
      Thrown (mkError "Cannot read properties of undefined (reading 'url')")
  | Some us =>
      match url us with
      | None =>
          Thrown (mkError "Cannot read properties of undefined (reading 'map')")
      | Some entries =>
          match allLocs entries with
          | Thrown e => Thrown e
          | Ok values => definedLocs values
          end
      end
  end.

Definition liftOutcome {A : Type} (o : Outcome A) : M A := fun w => (o, w).

(** [randomKeyword.replace(/[^a-z0-9]/gi, '_').toLowerCase()]. *)
Definition safeFileName (keyword : string) : string :=
  toLowerCase
    (mapChars (fun c => if isLower c || isUpper c || isDigit c
                        then c else "_"%char) keyword).

(** The constants of one attempt: [domain], [timestamp],
    [outputDir] and the two lists. *)
Record Collected : Type := mkCollected {
  cDomain : string;
  cTimestamp : string;
  cOutputDir : string;
  cAcc : Acc
}.

(** The object returned by [processSitemap]. *)
Record DomainResult : Type := mkDomainResult {
  domain : string;
  outputDir : string;
  keywordCount : nat;
  phraseCount : nat;
  processedKeyword : string
}.

(** Lines 90-95: the optional article.  The index drawn is always
    within the list; [fs.writeFile] refuses [undefined] as data. *)
Definition articleStep (outDir timestamp : string) (kws : list string)
  : M string :=
  if (0 <? length kws)%nat then
    r <- mathRandom ;;
    let randomKeyword := nth (randomIndex r (length kws)) kws "undefined" in
    article <- generateArticle randomKeyword ;;
    match article with
    | Some text =>
        fsWriteFile (pathJoin env outDir
                       (safeFileName randomKeyword ++ "_" ++ timestamp
                          ++ ".txt"))
                    text
    | None =>
        typeError "The data argument must be of type string. Received undefined"
    end ;;;
    ret randomKeyword
  else ret "None".

(** Lines 45-88: everything up to the two lists being written. *)
Definition collectStep (sitemapUrl : string) : M Collected :=
  match urlHostname env sitemapUrl with
  | None => typeError "Invalid URL"
  | Some dom =>
      timestamp <- getTimestamp ;;
      let outDir := pathJoin env "output" (dom ++ "_" ++ timestamp) in
      fsMkdir outDir ;;;
      data <- axiosGet sitemapUrl ;;
      result <- parseStringPromise data ;;
      locs <- liftOutcome (resultLocs result) ;;
      let acc := classifyLocs locs in
      writeBoth
        (pathJoin env outDir ("keywords_" ++ timestamp ++ ".txt"))
        (join (String "010" "") (keywords acc))
        (pathJoin env outDir ("phrases_" ++ timestamp ++ ".txt"))
        (join (String "010" "") (phrases acc)) ;;;
      ret (mkCollected dom timestamp outDir acc)
  end.

(** The [try] block of [processSitemap], lines 45-103. *)
Definition processSitemapBody (sitemapUrl : string) : M DomainResult :=
  c <- collectStep sitemapUrl ;;
  randomKeyword <- articleStep (cOutputDir c) (cTimestamp c)
                               (keywords (cAcc c)) ;;
  ret (mkDomainResult (cDomain c) (cOutputDir c)
                      (length (keywords (cAcc c)))
                      (length (phrases (cAcc c))) randomKeyword).

(** [async function processSitemap(sitemapUrl)]. *)
Definition processSitemap (sitemapUrl : string)
  : M (option DomainResult) :=
  retryLoop maxRetries sitemapUrl (processSitemapBody sitemapUrl)
            (maxRetries - 0) 0.

(** The message the worker posts: [processSitemap(workerData)
    .then(result => postMessage(result))
    .catch(error => postMessage({ error: error.message }))]. *)
Inductive Message : Type :=
| MsgResult (r : option DomainResult)
| MsgError (text : string).

Definition workerMain (sitemapUrl : string) (w : World) : Message * World :=
  match processSitemap sitemapUrl w with
  | (Ok r, w') => (MsgResult r, w')
  | (Thrown e, w') => (MsgError (message e), w')
  end.

End WithEnv.

End Processor.

(* ===================================================================== *)
(** ** The dispatch loop and the summary step of [main]                   *)
(* ===================================================================== *)

Module Scheduler.
Import JsString Classifier Processor.

(** What the coordinator does that the claims speak about. *)
Inductive SchedEvent : Type :=
| SLaunch (worker : nat) (sitemapUrl : string)
| SSleep (ms : nat).

(** The coordinator's variables.  [workers] is the [Map] from [Worker]
    objects (here numbered in creation order) to their URL; [alive] is
    the set of worker threads that have not ended yet, which the
    coordinator cannot see. *)
Record Sched : Type := mkSched {
  queue : list string;
  workers : gmap nat string;
  nextWorker : nat;
  alive : gset nat;
  results : list DomainResult;
  journal : list SchedEvent
}.

Section WithEnv.
Variable env : Env.

(** Lines 142-154: the lines of [sitemaps.txt] that are not blank and
    that [new URL] accepts. *)
Definition sitemapUrls (sitemaps : string) : list string :=
  filter (fun u => match urlHostname env u with Some _ => true | None => false end)
         (filter (fun u => truthy (trim u)) (split "010" sitemaps)).

Definition initial (urls : list string) : Sched :=
  mkSched urls ∅ 0 ∅ [] [].

(** One turn of the [for] loop of lines 161-198, from one [await] to
    the next: either the [while] body (the map is full, sleep), or the
    launch of a worker followed by the sleep at line 197.  [None] when
    the loop is over. *)
Definition coordinatorTurn (s : Sched) : option Sched :=
  match queue s with
  | [] => None
  | sitemapUrl :: rest =>
      if (MAX_WORKERS env <=? size (workers s))%nat then
        Some (mkSched (queue s) (workers s) (nextWorker s) (alive s)
                      (results s)
                      (journal s ++ [SSleep (RATE_LIMIT_DELAY env)]))
      else
        let worker := nextWorker s in
        Some (mkSched rest (<[worker := sitemapUrl]> (workers s))
                      (S worker) ({[worker]} ∪ alive s) (results s)
                      (journal s ++ [SLaunch worker sitemapUrl;
                                     SSleep (RATE_LIMIT_DELAY env)]))
  end.

(** [worker.on('message', result => ...)]: a result without [error]
    is pushed.  Of the handler only this effect on [results] is kept:
    the calls on the progress bar of the host, and an error whose text
    is empty (which the test [if (result.error)] takes for a result),
    are left out. *)
Definition onMessage (m : Message) (s : Sched) : Sched :=
  match m with
  | MsgResult (Some r) =>
      mkSched (queue s) (workers s) (nextWorker s) (alive s)
              (results s ++ [r]) (journal s)
  | _ => s
  end.

(** [worker.on('exit', () => { workers.delete(worker); ... })]. *)
Definition onExit (worker : nat) (s : Sched) : Sched :=
  mkSched (queue s) (delete worker (workers s)) (nextWorker s) (alive s)
          (results s) (journal s).

(** The worker thread itself comes to its end. *)
Definition threadEnds (worker : nat) (s : Sched) : Sched :=
  mkSched (queue s) (workers s) (nextWorker s) (alive s ∖ {[worker]})
          (results s) (journal s).

(** The event loop: a turn of the coordinator, or one of the events of
    a worker, which reach the coordinator only between its turns.  A
    worker posts its message while alive, and its [exit] event is
    delivered after the thread has ended. *)
Inductive step : Sched -> Sched -> Prop :=
| step_turn s s' :
    coordinatorTurn s = Some s' -> step s s'
| step_message s worker m :
    worker ∈ alive s -> step s (onMessage m s)
| step_end s worker :
    worker ∈ alive s -> step s (threadEnds worker s)
| step_exit s worker :
    is_Some (workers s !! worker) -> worker ∉ alive s ->
    step s (onExit worker s).

Inductive reachable (urls : list string) : Sched -> Prop :=
| reach_initial : reachable urls (initial urls)
| reach_step s s' : reachable urls s -> step s s' -> reachable urls s'.

(** Every launch in the journal is directly followed by the sleep of
    [ms] milliseconds. *)
Fixpoint launchesSpaced (ms : nat) (j : list SchedEvent) : bool :=
  match j with
  | [] => true
  | SLaunch _ _ :: rest =>
      match rest with
      | SSleep ms' :: _ => (ms' =? ms)%nat && launchesSpaced ms rest
      | _ => false
      end
  | SSleep _ :: rest => launchesSpaced ms rest
  end.

(** Line 206-208: the summary line of one result. *)
Definition summaryLine (r : DomainResult) : string :=
  domain r ++ ": " ++ showNat (keywordCount r) ++ " keywords, "
    ++ showNat (phraseCount r) ++ " phrases, processed keyword: "
    ++ processedKeyword r.

(** Lines 206-214: for every result the file that is written and what
    [summaries.find(s => s.startsWith(r.domain))] puts in it ([None]
    is [undefined]). *)
Definition summaryWrites (timestamp : string)
           (rs : list DomainResult) : list (string * option string) :=
  let summaries := map summaryLine rs in
  map (fun r =>
         (pathJoin env (outputDir r) ("summary_" ++ timestamp ++ ".txt"),
          find (fun s => startsWith s (domain r)) summaries))
      rs.

(** Line 216. *)
Definition totalArticles (rs : list DomainResult) : nat :=
  length (filter (fun r => negb (String.eqb (processedKeyword r) "None")) rs).

End WithEnv.

End Scheduler.

Import JsString Classifier Processor Scheduler.

(* ===================================================================== *)
(** ** Vocabulary of the statements                                       *)
(* ===================================================================== *)

Module Vocabulary.
Import JsString Classifier Processor Scheduler.

(** [c] occurs in [s]. *)
Fixpoint hasChar (c : ascii) (s : string) : bool :=
  match s with
  | EmptyString => false
  | String a r => Ascii.eqb a c || hasChar c r
  end.

(** [s] consists of white space only. *)
Fixpoint allWhite (s : string) : bool :=
  match s with
  | EmptyString => true
  | String a r => isWhiteSpace a && allWhite r
  end.

(** A word as [pathWords] leaves it: no space inside, not blank. *)
Definition wordOk (w : string) : bool :=
  negb (hasChar " " w) && negb (allWhite w).

(** The two guards of the reducer. *)
Definition keywordTest (phrase : string) : bool :=
  endsWith phrase "NJ" && isValidKeyword phrase.

Definition phraseTest (phrase : string) : bool :=
  negb (endsWith phrase "NJ") && isValidKeyword phrase.


(** First letter upper, rest lower. *)
Definition titleCase (w : string) : string :=
  match w with
  | EmptyString => EmptyString
  | String c r => String (upperChar c) (toLowerCase r)
  end.

(** Every token in title case, except a last token that is [nj] in
    any letter case, which is upper-cased entirely. *)
Fixpoint caseTokens (ws : list string) : list string :=
  match ws with
  | [] => []
  | [w] => [if String.eqb (toLowerCase w) "nj" then toUpperCase w
            else titleCase w]
  | w :: rest => titleCase w :: caseTokens rest
  end.

(** The tokens of a path: slashes and extension stripped, hyphens
    turned into spaces, cut at the spaces, blank pieces dropped. *)
Definition pathTokens (path : string) : list string :=
  filter (fun w => negb (allWhite w))
         (split " " (replaceChar "-" " "
                       (stripExtension (stripSlashes path)))).

(** The transformation from the path onwards, with the tokens cased
    by structural recursion instead of by index. *)
Definition specTransformPath (path : string) : string :=
  join " " (caseTokens (pathTokens path)).

(** What [console.error] prints for a failed attempt; the world once
    the failure has been reported, and once the loop has slept before
    the next attempt. *)
Definition failureMessage (subject : string) (attempts : nat)
           (error : JsError) : string :=
  "Attempt " ++ showNat attempts ++ " failed for " ++ subject ++ ": "
    ++ message error.

Definition reported (subject : string) (attempts : nat) (error : JsError)
           (w : World) : World :=
  emit (EvConsoleError (failureMessage subject attempts error)) w.

Definition afterFailure (env : Env) (subject : string) (attempts : nat)
           (error : JsError) (w : World) : World :=
  emit (EvSleep (RATE_LIMIT_DELAY env * attempts))
       (reported subject attempts error w).

(** The keyword that [articleStep] picks in world [w]. *)
Definition pickedKeyword (env : Env) (kws : list string) (w : World) : string :=
  nth (randomIndex (randomAnswer env (tick w)) (length kws)) kws "undefined".

(** The document has no [urlset] root, or the root has no [url]
    children. *)
Definition noEntries (result : XmlResult) : Prop :=
  urlset result = None \/
  exists us, urlset result = Some us /\ url us = None.

(** A scripted environment: host [x.com], a fixed clock, a file system
    that works, and a sitemap of two entries; the fetch and the
    completion fail at the instants the two predicates name. *)
Definition demoDocument : XmlResult :=
  mkXmlResult
    (Some (mkUrlSet
             (Some [mkUrlEntry (Some ["https://x.com/plumbing-repair-nj.html"]);
                    mkUrlEntry (Some ["https://x.com/our-services"])]))).

Definition scriptedEnv (doc : XmlResult) (getFails completionFails : nat -> bool)
  : Env :=
  mkEnv 1000 2
        (fun _ => Some "x.com")
        (fun a b => (a ++ "/" ++ b)%string)
        (fun _ => "2024-01-02T03:04:05.678Z")
        (fun _ _ => None)
        (fun t _ => if getFails t then Thrown (mkError "ECONNRESET")
                    else Ok "<urlset>...</urlset>")
        (fun _ => Ok doc)
        (fun _ _ _ => None)
        (fun _ => mkRand 0 0)
        (fun t _ => if completionFails t then Thrown (mkError "429")
                    else Ok "An article.").

Definition startWorld : World := mkWorld 0 [].

(** What the dispatch loop keeps true. *)
Definition schedulerInvariant (env : Env) (s : Sched) : Prop :=
  alive s ⊆ dom (workers s)
  /\ size (workers s) <= MAX_WORKERS env
  /\ launchesSpaced (RATE_LIMIT_DELAY env) (journal s) = true.

(** The scheduler after its first turn on one URL. *)
Definition afterFirstTurn (env : Env) (urls : list string) : Sched :=
  match coordinatorTurn env (initial urls) with
  | Some s => s
  | None => initial urls
  end.

Definition calmEnv : Env :=
  scriptedEnv demoDocument (fun _ => false) (fun _ => false).

(** Two results of one run; the host of the second is the start of
    the host of the first. *)
Definition resultCom : DomainResult :=
  mkDomainResult "example.com" "output/example.com_2024-01-02T03-04-05-678Z"
                 3 4 "Plumbing Repair NJ".

Definition resultCo : DomainResult :=
  mkDomainResult "example.co" "output/example.co_2024-01-02T03-04-09-120Z"
                 0 1 "None".

(** The trace of [w'] continues the trace of [w]. *)
Definition traceExtends (w w' : World) : Prop :=
  exists suffix, trace w' = (trace w ++ suffix)%list.

(** Every code unit of [s] satisfies [p]. *)
Fixpoint allChars (p : ascii -> bool) (s : string) : bool :=
  match s with
  | EmptyString => true
  | String a r => p a && allChars p r
  end.

(** Every code unit of [s] is below 128. *)
Definition isAscii (s : string) : bool :=
  allChars (fun c => (nat_of_ascii c <? 128)%nat) s.

(** A lower-case letter, a digit or an underscore. *)
Definition safeChar (c : ascii) : bool :=
  isLower c || isDigit c || Ascii.eqb c "_".

(** The completion requests in a stretch of the trace, and the time
    slept in it. *)
Fixpoint countCompletions (l : list Event) : nat :=
  match l with
  | [] => 0
  | EvCompletion _ :: r => S (countCompletions r)
  | _ :: r => countCompletions r
  end.

Fixpoint totalSleep (l : list Event) : nat :=
  match l with
  | [] => 0
  | EvSleep ms :: r => ms + totalSleep r
  | _ :: r => totalSleep r
  end.

(** The URLs launched according to a journal, in order. *)
Fixpoint launchedUrls (j : list SchedEvent) : list string :=
  match j with
  | [] => []
  | SLaunch _ u :: r => u :: launchedUrls r
  | SSleep _ :: r => launchedUrls r
  end.

(** The scripted environment with no worker slot at all. *)
Definition idleEnv : Env :=
  mkEnv 1000 0
        (urlHostname calmEnv) (pathJoin calmEnv) (clockIso calmEnv)
        (mkdirAnswer calmEnv) (getAnswer calmEnv) (parseAnswer calmEnv)
        (writeAnswer calmEnv) (randomAnswer calmEnv)
        (completionAnswer calmEnv).

End Vocabulary.

Import Vocabulary.

(* ===================================================================== *)
(** * Properties                                                          *)
(* ===================================================================== *)

(** ** Strings *)

Section StringFacts.

Lemma append_cons (c : ascii) (a b : string) :
  (String c a ++ b)%string = String c (a ++ b)%string.
Proof. reflexivity. Qed.

Lemma append_nil_l (b : string) : ("" ++ b)%string = b.
Proof. reflexivity. Qed.

Lemma append_empty_r (s : string) : (s ++ "")%string = s.
Proof.
  induction s as [|c r IH]; [reflexivity |].
  now rewrite append_cons, IH.
Qed.

Lemma append_assoc (a b c : string) :
  ((a ++ b) ++ c = a ++ b ++ c)%string.
Proof.
  induction a as [|x a IH]; [reflexivity |].
  now rewrite !append_cons, IH.
Qed.

Lemma length_append (a b : string) :
  String.length (a ++ b)%string = String.length a + String.length b.
Proof.
  induction a as [|x a IH]; [reflexivity |].
  rewrite append_cons. simpl. now rewrite IH.
Qed.

Lemma trimEnd_empty_iff (s : string) :
  trimEnd s = "" <-> allWhite s = true.
Proof.
  induction s as [|c r IH]; simpl.
  - tauto.
  - destruct (trimEnd r) eqn:E.
    + destruct (isWhiteSpace c); simpl.
      * tauto.
      * split; discriminate.
    + split; [discriminate |].
      intros H. apply andb_true_iff in H as [_ H].
      apply IH in H. discriminate.
Qed.

Lemma allWhite_trimStart (s : string) :
  allWhite (trimStart s) = allWhite s.
Proof.
  induction s as [|c r IH]; simpl; [reflexivity |].
  destruct (isWhiteSpace c) eqn:E; simpl; [assumption | now rewrite E].
Qed.

Lemma truthy_trim (s : string) : truthy (trim s) = negb (allWhite s).
Proof.
  unfold trim. rewrite <- (allWhite_trimStart s).
  destruct (trimEnd (trimStart s)) eqn:E; simpl.
  - apply trimEnd_empty_iff in E. now rewrite E.
  - destruct (allWhite (trimStart s)) eqn:W; [| reflexivity].
    apply trimEnd_empty_iff in W. congruence.
Qed.

Lemma length_pos_truthy (s : string) :
  (0 <? String.length s)%nat = truthy s.
Proof. destruct s; reflexivity. Qed.

Lemma split_not_nil (sep : ascii) (s : string) : split sep s <> [].
Proof.
  induction s as [|c r IH]; simpl; [discriminate |].
  destruct (Ascii.eqb c sep); [discriminate |].
  destruct (split sep r); discriminate.
Qed.

Lemma split_no_sep (sep : ascii) (s : string) :
  hasChar sep s = false -> split sep s = [s].
Proof.
  induction s as [|c r IH]; simpl; [reflexivity |].
  intros H. apply orb_false_iff in H as [Hc Hr].
  rewrite Hc, (IH Hr). reflexivity.
Qed.

Lemma split_append_sep (sep : ascii) (a b : string) :
  hasChar sep a = false ->
  split sep (a ++ String sep b)%string = a :: split sep b.
Proof.
  induction a as [|c r IH]; intros H.
  - rewrite append_nil_l. simpl. now rewrite Ascii.eqb_refl.
  - simpl in H. apply orb_false_iff in H as [Hc Hr].
    rewrite append_cons. simpl. rewrite Hc, (IH Hr). reflexivity.
Qed.

(** Splitting what [join] glued gives the pieces back. *)
Lemma split_join (ws : list string) :
  ws <> [] ->
  Forall (fun w => hasChar " " w = false) ws ->
  split " " (join " " ws) = ws.
Proof.
  induction ws as [|w ws IH]; [congruence |].
  intros _ Hall. inversion Hall as [|? ? Hw Hws]; subst.
  destruct ws as [|w' ws'].
  - simpl. now apply split_no_sep.
  - change (join " " (w :: w' :: ws')) with (w ++ String " " (join " " (w' :: ws')))%string.
    rewrite split_append_sep by assumption.
    f_equal. apply IH; [discriminate | assumption].
Qed.

Lemma split_pieces_no_sep (sep : ascii) (s : string) :
  Forall (fun w => hasChar sep w = false) (split sep s).
Proof.
  induction s as [|c r IH]; simpl.
  - constructor; [reflexivity | constructor].
  - destruct (Ascii.eqb c sep) eqn:E.
    + constructor; [reflexivity | assumption].
    + destruct (split sep r) as [|w ws].
      * constructor; [simpl; now rewrite E | constructor].
      * inversion IH; subst. constructor; [simpl; now rewrite E | assumption].
Qed.

End StringFacts.

(** ** The classifier *)

Section ClassifierFacts.

Lemma upperChar_space (c : ascii) :
  Ascii.eqb (upperChar c) " " = Ascii.eqb c " ".
Proof. destruct c as [[] [] [] [] [] [] [] []]; reflexivity. Qed.

Lemma lowerChar_space (c : ascii) :
  Ascii.eqb (lowerChar c) " " = Ascii.eqb c " ".
Proof. destruct c as [[] [] [] [] [] [] [] []]; reflexivity. Qed.

Lemma upperChar_white (c : ascii) :
  isWhiteSpace (upperChar c) = isWhiteSpace c.
Proof. destruct c as [[] [] [] [] [] [] [] []]; reflexivity. Qed.

Lemma lowerChar_white (c : ascii) :
  isWhiteSpace (lowerChar c) = isWhiteSpace c.
Proof. destruct c as [[] [] [] [] [] [] [] []]; reflexivity. Qed.

Lemma hasChar_mapChars (f : ascii -> ascii) (d : ascii) (s : string) :
  (forall c, Ascii.eqb (f c) d = Ascii.eqb c d) ->
  hasChar d (mapChars f s) = hasChar d s.
Proof.
  intros Hf. induction s as [|c r IH]; simpl; [reflexivity |].
  now rewrite Hf, IH.
Qed.

Lemma allWhite_mapChars (f : ascii -> ascii) (s : string) :
  (forall c, isWhiteSpace (f c) = isWhiteSpace c) ->
  allWhite (mapChars f s) = allWhite s.
Proof.
  intros Hf. induction s as [|c r IH]; simpl; [reflexivity |].
  now rewrite Hf, IH.
Qed.

Lemma hasChar_append (d : ascii) (a b : string) :
  hasChar d (a ++ b)%string = hasChar d a || hasChar d b.
Proof.
  induction a as [|c r IH]; [reflexivity |].
  rewrite append_cons. simpl. now rewrite IH, orb_assoc.
Qed.

Lemma allWhite_append (a b : string) :
  allWhite (a ++ b)%string = allWhite a && allWhite b.
Proof.
  induction a as [|c r IH]; [reflexivity |].
  rewrite append_cons. simpl. now rewrite IH, andb_assoc.
Qed.

Lemma charAt0_slice1 (w : string) : (charAt0 w ++ slice1 w)%string = w.
Proof. destruct w; reflexivity. Qed.

Lemma transformWord_ok (ws : list string) (w : string) (i : nat) :
  wordOk w = true -> wordOk (transformWord ws w i) = true.
Proof.
  unfold wordOk, transformWord. intros H.
  destruct ((Z.of_nat i =? Z.of_nat (length ws) - 1)%Z
            && String.eqb (toLowerCase w) "nj").
  - unfold toUpperCase.
    rewrite (hasChar_mapChars _ _ _ upperChar_space).
    now rewrite (allWhite_mapChars _ _ upperChar_white).
  - rewrite hasChar_append, allWhite_append. unfold toUpperCase, toLowerCase.
    rewrite (hasChar_mapChars _ _ _ upperChar_space),
            (hasChar_mapChars _ _ _ lowerChar_space),
            (allWhite_mapChars _ _ upperChar_white),
            (allWhite_mapChars _ _ lowerChar_white).
    rewrite <- hasChar_append, <- allWhite_append, charAt0_slice1.
    exact H.
Qed.

Lemma pathWords_ok (u : string) :
  Forall (fun w => wordOk w = true) (pathWords u).
Proof.
  unfold pathWords. apply Forall_forall. intros w Hin.
  apply filter_In in Hin as [Hin Hpos].
  pose proof (split_pieces_no_sep " " (replaceChar "-" " " (withoutSlashes u))) as Hsp.
  rewrite Forall_forall in Hsp. specialize (Hsp w Hin).
  rewrite length_pos_truthy, truthy_trim in Hpos.
  unfold wordOk. now rewrite Hsp, Hpos.
Qed.

Lemma mapIndexFrom_Forall {A B : Type} (P : A -> Prop) (Q : B -> Prop)
      (f : A -> nat -> B) (l : list A) :
  (forall x i, P x -> Q (f x i)) ->
  forall i, Forall P l -> Forall Q (mapIndexFrom i f l).
Proof.
  intros Hf. induction l as [|x l IH]; intros i Hall; simpl.
  - constructor.
  - inversion Hall; subst. constructor; auto.
Qed.

Lemma mapIndexFrom_length {A B : Type} (f : A -> nat -> B) (l : list A) :
  forall i, length (mapIndexFrom i f l) = length l.
Proof. induction l as [|x l IH]; intros i; simpl; [reflexivity | now rewrite IH]. Qed.

(** The words of a transformed URL are again proper words. *)
Lemma transformedWords_ok (u : string) :
  Forall (fun w => wordOk w = true)
         (mapIndex (transformWord (pathWords u)) (pathWords u)).
Proof.
  unfold mapIndex.
  apply mapIndexFrom_Forall with (P := fun w => wordOk w = true).
  - intros x i. apply transformWord_ok.
  - apply pathWords_ok.
Qed.

Lemma filter_all_true {A : Type} (f : A -> bool) (l : list A) :
  Forall (fun x => f x = true) l -> filter f l = l.
Proof.
  induction 1 as [|x l Hx _ IH]; simpl; [reflexivity |].
  now rewrite Hx, IH.
Qed.

(** On a phrase glued from proper words [isValidKeyword] counts the
    words. *)
Lemma isValidKeyword_join (ws : list string) :
  ws <> [] ->
  Forall (fun w => wordOk w = true) ws ->
  split " " (join " " ws) = ws /\
  isValidKeyword (join " " ws) = (2 <=? length ws)%nat.
Proof.
  intros Hne Hall.
  assert (Hsplit : split " " (join " " ws) = ws).
  { apply split_join; [assumption |].
    eapply Forall_impl; [| exact Hall].
    intros w Hw. unfold wordOk in Hw.
    apply andb_true_iff in Hw as [Hw _]. now apply negb_true_iff in Hw. }
  split; [assumption |].
  unfold isValidKeyword. rewrite Hsplit.
  rewrite filter_all_true; [reflexivity |].
  eapply Forall_impl; [| exact Hall].
  intros w Hw. unfold wordOk in Hw.
  apply andb_true_iff in Hw as [_ Hw]. now rewrite truthy_trim.
Qed.

(** For a transformed URL that is not empty, [isValidKeyword] holds
    exactly when the phrase has two space-separated words or more. *)
Lemma isValidKeyword_transformUrl (u : string) :
  transformUrl u <> "" ->
  isValidKeyword (transformUrl u)
  = (2 <=? length (split " " (transformUrl u)))%nat.
Proof.
  intros Hne. unfold transformUrl in *.
  set (ws := mapIndex (transformWord (pathWords u)) (pathWords u)) in *.
  assert (Hws : ws <> []) by (intros E; rewrite E in Hne; now apply Hne).
  destruct (isValidKeyword_join ws Hws (transformedWords_ok u)) as [Hs Hv].
  now rewrite Hv, Hs.
Qed.

Lemma fold_reducer (l : list string) :
  forall acc,
    keywords (fold_left reducer l acc)
    = (keywords acc ++ filter keywordTest l)%list /\
    phrases (fold_left reducer l acc)
    = (phrases acc ++ filter phraseTest l)%list.
Proof.
  induction l as [|p l IH]; intros acc; simpl.
  - now rewrite !app_nil_r.
  - destruct (IH (reducer acc p)) as [Hk Hp]. rewrite Hk, Hp.
    unfold reducer, keywordTest, phraseTest.
    destruct (endsWith p "NJ"), (isValidKeyword p); simpl;
      rewrite <- ?app_assoc; auto.
Qed.

Lemma classifyLocs_filter (locs : list string) :
  keywords (classifyLocs locs) = filter keywordTest (transformedTexts locs) /\
  phrases (classifyLocs locs) = filter phraseTest (transformedTexts locs).
Proof. unfold classifyLocs. apply (fold_reducer _ (mkAcc [] [])). Qed.

Lemma count_occ_filter (f : string -> bool) (l : list string) (p : string) :
  count_occ string_dec (filter f l) p
  = if f p then count_occ string_dec l p else 0.
Proof.
  induction l as [|x l IH]; simpl.
  - now destruct (f p).
  - destruct (f x) eqn:Fx; simpl; destruct (string_dec x p) as [->|Hne];
      rewrite IH; try rewrite Fx; try reflexivity;
      now destruct (f p).
Qed.

Lemma transformedTexts_In (locs : list string) (u : string) :
  In u locs -> blogTest u = false -> transformUrl u <> "" ->
  In (transformUrl u) (transformedTexts locs).
Proof.
  intros Hin Hb Hne. unfold transformedTexts.
  apply filter_In. split.
  - apply in_map. apply filter_In. split; [assumption | now rewrite Hb].
  - destruct (transformUrl u); [contradiction | reflexivity].
Qed.

End ClassifierFacts.

(** C1: take an entry of the sitemap that the blog filter lets through
    and whose phrase is not empty.  If the classifier accepts the phrase
    ([isValidKeyword]), the phrase is in the keywords and phrases
    sequences as often, taken together, as it occurs among the
    transformed texts, hence at least once: nothing is dropped and
    nothing is duplicated; it is among the keywords exactly when it ends
    with [NJ] and among the phrases exactly when it does not, so it is
    never in both.  This holds for every URL.  For a URL of ASCII code
    units the classifier accepts the phrase exactly when it has at least
    two space-separated words. *)
Theorem C1_accepted_phrase_in_exactly_one (locs : list string) (u : string) :
  In u locs ->
  blogTest u = false ->
  transformUrl u <> "" ->
  let p := transformUrl u in
  let acc := classifyLocs locs in
  (isValidKeyword p = true ->
   count_occ string_dec (keywords acc) p + count_occ string_dec (phrases acc) p
     = count_occ string_dec (transformedTexts locs) p
   /\ 1 <= count_occ string_dec (transformedTexts locs) p
   /\ (In p (keywords acc) <-> endsWith p "NJ" = true)
   /\ (In p (phrases acc) <-> endsWith p "NJ" = false)
   /\ ~ (In p (keywords acc) /\ In p (phrases acc)))
  /\ (isAscii u = true ->
      (isValidKeyword p = true <-> 2 <= length (split " " p))).
Proof.
  intros Hin Hblog Hne p acc. split.
  - intros Hvalid.
    destruct (classifyLocs_filter locs) as [Hk Hp].
    assert (HinT : In p (transformedTexts locs))
      by now apply transformedTexts_In.
    assert (Hcount : 1 <= count_occ string_dec (transformedTexts locs) p).
    { apply (count_occ_In string_dec) in HinT. lia. }
    assert (Hkw : In p (keywords acc) <-> endsWith p "NJ" = true).
    { unfold acc. rewrite Hk, filter_In. unfold keywordTest. rewrite Hvalid.
      rewrite andb_true_r. tauto. }
    assert (Hph : In p (phrases acc) <-> endsWith p "NJ" = false).
    { unfold acc. rewrite Hp, filter_In. unfold phraseTest. rewrite Hvalid.
      rewrite andb_true_r, negb_true_iff. tauto. }
    split; [| split; [exact Hcount | split; [exact Hkw | split; [exact Hph |]]]].
    + unfold acc. rewrite Hk, Hp, !count_occ_filter.
      unfold keywordTest, phraseTest. rewrite Hvalid.
      destruct (endsWith p "NJ"); simpl; lia.
    + intros [H1 H2]. apply Hkw in H1. apply Hph in H2. congruence.
  - intros _. unfold p. rewrite isValidKeyword_transformUrl by assumption.
    apply Nat.leb_le.
Qed.

(** The entry [https://x.com/plumbing-repair-nj.html] among three. *)
Lemma C1_accepted_phrase_witness :
  let locs := ["https://x.com/about"; "https://x.com/plumbing-repair-nj.html";
               "https://x.com/our-services"] in
  let p := transformUrl "https://x.com/plumbing-repair-nj.html" in
  let acc := classifyLocs locs in
  (count_occ string_dec (keywords acc) p + count_occ string_dec (phrases acc) p
     = count_occ string_dec (transformedTexts locs) p
   /\ 1 <= count_occ string_dec (transformedTexts locs) p
   /\ (In p (keywords acc) <-> endsWith p "NJ" = true)
   /\ (In p (phrases acc) <-> endsWith p "NJ" = false)
   /\ ~ (In p (keywords acc) /\ In p (phrases acc)))
  /\ (isValidKeyword p = true <-> 2 <= length (split " " p)).
Proof.
  destruct (C1_accepted_phrase_in_exactly_one
              ["https://x.com/about"; "https://x.com/plumbing-repair-nj.html";
               "https://x.com/our-services"]
              "https://x.com/plumbing-repair-nj.html") as [H1 H2].
  - simpl. tauto.
  - reflexivity.
  - vm_compute. discriminate.
  - split; [apply H1; reflexivity | apply H2; reflexivity].
Defined.

(** A no-break space is white space: the piece is dropped and the one
    word left is not accepted. *)
Example no_break_space_is_blank :
  isWhiteSpace "160" = true
  /\ classifyLocs [("https://x.com/plumbing-" ++ String "160" "")%string]
     = mkAcc [] [].
Proof. split; reflexivity. Qed.

(** ** The blog filter *)

Section BlogFilter.












End BlogFilter.




(** ** The transformation of a URL into a phrase *)

Section Transformation.

Lemma drop_length_app (a b : string) :
  drop (String.length a) (a ++ b)%string = b.
Proof. induction a as [|c a IH]; [reflexivity | exact IH]. Qed.

Lemma drop_app_plus (a b : string) (n : nat) :
  drop (String.length a + n) (a ++ b)%string = drop n b.
Proof. induction a as [|c a IH]; [reflexivity | exact IH]. Qed.

Lemma take_length_app (a b : string) :
  take (String.length a) (a ++ b)%string = a.
Proof.
  induction a as [|c a IH]; [reflexivity |].
  rewrite append_cons. simpl. now rewrite IH.
Qed.

Lemma endsWith_app (a b : string) : endsWith (a ++ b)%string b = true.
Proof.
  unfold endsWith. rewrite length_append.
  replace (String.length a + String.length b - String.length b)
    with (String.length a) by lia.
  rewrite drop_length_app, String.eqb_refl, andb_true_r.
  apply Nat.leb_le. lia.
Qed.

Lemma stripSuffix_app (a b : string) : stripSuffix b (a ++ b)%string = Some a.
Proof.
  unfold stripSuffix. rewrite endsWith_app, length_append.
  replace (String.length a + String.length b - String.length b)
    with (String.length a) by lia.
  now rewrite take_length_app.
Qed.

Lemma take_drop (n : nat) :
  forall s, (take n s ++ drop n s)%string = s.
Proof.
  induction n as [|n IH]; intros s; [reflexivity |].
  destruct s as [|c r]; [reflexivity |].
  simpl. rewrite append_cons. now rewrite IH.
Qed.

(** [endsWith] finds a final piece. *)
Lemma endsWith_inv (s p : string) :
  endsWith s p = true -> exists a, s = (a ++ p)%string.
Proof.
  unfold endsWith. intros H. apply andb_true_iff in H as [_ H].
  apply String.eqb_eq in H.
  set (n := String.length s - String.length p) in *.
  exists (take n s). rewrite <- H. symmetry. apply take_drop.
Qed.

Lemma php_not_html (s : string) : endsWith (s ++ ".php")%string ".html" = false.
Proof.
  destruct (endsWith (s ++ ".php")%string ".html") eqn:E; [| reflexivity].
  apply endsWith_inv in E as [a Ha].
  assert (Hlen : String.length s + 4 = String.length a + 5).
  { apply (f_equal String.length) in Ha. rewrite !length_append in Ha.
    simpl in Ha. lia. }
  apply (f_equal (drop (String.length a + 4))) in Ha.
  rewrite (drop_app_plus a ".html" 4) in Ha.
  replace (String.length a + 4) with (String.length s + 3) in Ha by lia.
  rewrite (drop_app_plus s ".php" 3) in Ha. discriminate.
Qed.

Lemma stripExtension_html (s : string) :
  stripExtension (s ++ ".html")%string = s.
Proof. unfold stripExtension. now rewrite stripSuffix_app. Qed.

Lemma stripExtension_php (s : string) :
  stripExtension (s ++ ".php")%string = s.
Proof.
  unfold stripExtension.
  unfold stripSuffix at 1. rewrite php_not_html.
  now rewrite stripSuffix_app.
Qed.

Lemma stripSlashes_both (s : string) :
  stripSlashes ("/" ++ s ++ "/")%string = s.
Proof.
  unfold stripSlashes.
  change (stripPrefix "/" ("/" ++ s ++ "/")%string) with (Some (s ++ "/")%string).
  cbv beta iota. now rewrite stripSuffix_app.
Qed.

Lemma skipNot_app (c : ascii) (h rest : string) :
  hasChar c h = false ->
  rest = "" \/ startsWith rest (String c "") = true ->
  skipNot c (h ++ rest)%string = rest.
Proof.
  intros Hh Hrest. induction h as [|a h IH].
  - rewrite append_nil_l. destruct Hrest as [-> | Hs]; [reflexivity |].
    destruct rest as [|b rest]; [reflexivity |].
    simpl in Hs. apply andb_true_iff in Hs as [Hs _].
    simpl. rewrite Ascii.eqb_sym. now rewrite Hs.
  - simpl in Hh. apply orb_false_iff in Hh as [Ha Hh].
    rewrite append_cons. simpl. rewrite Ha. now apply IH.
Qed.

(** A lower-case [http] or [https] scheme and the host are removed. *)
Lemma withoutDomain_http (scheme host path : string) :
  scheme = "http" \/ scheme = "https" ->
  host <> "" ->
  hasChar "/" host = false ->
  path = "" \/ startsWith path "/" = true ->
  withoutDomain (scheme ++ "://" ++ host ++ path)%string = path.
Proof.
  intros Hs Hne Hh Hp.
  destruct host as [|c h]; [congruence |].
  simpl in Hh. apply orb_false_iff in Hh as [Hc Hh].
  destruct Hs as [-> | ->].
  - change (withoutDomain ("http" ++ "://" ++ String c h ++ path)%string)
      with (if Ascii.eqb c "/"
            then ("http" ++ "://" ++ String c h ++ path)%string
            else skipNot "/" (h ++ path)%string).
    rewrite Hc. now apply skipNot_app.
  - change (withoutDomain ("https" ++ "://" ++ String c h ++ path)%string)
      with (if Ascii.eqb c "/"
            then ("https" ++ "://" ++ String c h ++ path)%string
            else skipNot "/" (h ++ path)%string).
    rewrite Hc. now apply skipNot_app.
Qed.

Lemma titleCase_source (w : string) :
  (toUpperCase (charAt0 w) ++ toLowerCase (slice1 w))%string = titleCase w.
Proof. destruct w; reflexivity. Qed.

(** The indexed callback of the source does what [caseTokens] says. *)
Lemma mapIndexFrom_caseTokens (all : list string) (l : list string) :
  forall i, i + length l = length all ->
            mapIndexFrom i (transformWord all) l = caseTokens l.
Proof.
  induction l as [|w l IH]; intros i Hlen; [reflexivity |].
  simpl in Hlen. cbn [mapIndexFrom]. rewrite IH by lia.
  unfold transformWord. rewrite titleCase_source.
  destruct l as [|w' l'].
  - simpl in Hlen.
    replace (Z.of_nat i =? Z.of_nat (length all) - 1)%Z with true
      by (symmetry; apply Z.eqb_eq; lia).
    reflexivity.
  - simpl in Hlen.
    replace (Z.of_nat i =? Z.of_nat (length all) - 1)%Z with false
      by (symmetry; apply Z.eqb_neq; lia).
    reflexivity.
Qed.

Lemma pathWords_pathTokens (u : string) :
  pathWords u = pathTokens (withoutDomain u).
Proof.
  unfold pathWords, pathTokens, withoutSlashes.
  apply filter_ext. intros w. now rewrite length_pos_truthy, truthy_trim.
Qed.

Lemma transformUrl_spec (u : string) :
  transformUrl u = specTransformPath (withoutDomain u).
Proof.
  unfold transformUrl, specTransformPath, mapIndex.
  rewrite mapIndexFrom_caseTokens by reflexivity.
  now rewrite pathWords_pathTokens.
Qed.

Lemma transformUrl_tokens (u : string) :
  transformUrl u <> "" ->
  split " " (transformUrl u) = caseTokens (pathTokens (withoutDomain u)).
Proof.
  intros Hne.
  pose proof (transformedWords_ok u) as Hok.
  unfold transformUrl in *. unfold mapIndex in *.
  rewrite mapIndexFrom_caseTokens in * by reflexivity.
  rewrite pathWords_pathTokens in *.
  apply isValidKeyword_join; [| assumption].
  intros E. rewrite E in Hne. now apply Hne.
Qed.

End Transformation.

(** C3 at [HTTPS://x.com/plumbing-repair-nj.html]: the expression
    [/^https?:\/\/[^\/]+/] has no [i] flag, so an upper-case scheme is
    not matched, whatever follows it; scheme and host stay in
    [withoutDomain] and end up, title-cased, in the keyword.  The same
    address with the scheme in lower case gives [Plumbing Repair NJ]. *)
Theorem C3_upper_case_scheme_keeps_host :
  (forall rest : string,
      withoutDomain ("HTTPS://" ++ rest)%string = ("HTTPS://" ++ rest)%string
      /\ withoutDomain ("HTTP://" ++ rest)%string = ("HTTP://" ++ rest)%string
      /\ withoutDomain ("Https://" ++ rest)%string = ("Https://" ++ rest)%string
      /\ withoutDomain ("ftp://" ++ rest)%string = ("ftp://" ++ rest)%string)
  /\ blogTest "HTTPS://x.com/plumbing-repair-nj.html" = false
  /\ transformUrl "HTTPS://x.com/plumbing-repair-nj.html"
     = "Https://x.com/plumbing Repair NJ"
  /\ classifyLocs ["HTTPS://x.com/plumbing-repair-nj.html"]
     = mkAcc ["Https://x.com/plumbing Repair NJ"] []
  /\ withoutDomain "https://x.com/plumbing-repair-nj.html"
     = "/plumbing-repair-nj.html"
  /\ classifyLocs ["https://x.com/plumbing-repair-nj.html"]
     = mkAcc ["Plumbing Repair NJ"] [].
Proof.
  split; [intros rest; repeat split |].
  repeat split.
Qed.

(** A piece that is only a tab is dropped like an empty one. *)
Example transformUrl_blank_token :
  transformUrl ("https://x.com/drain-" ++ String "009" "-cleaning")%string
  = "Drain Cleaning".
Proof. reflexivity. Qed.

Example transformUrl_trailing_slash :
  transformUrl "https://x.com/emergency-plumber-nj/" = "Emergency Plumber NJ".
Proof. reflexivity. Qed.

Example classifyLocs_single_token :
  classifyLocs ["https://x.com/about"] = mkAcc [] [].
Proof. reflexivity. Qed.

(** ** The retry loops *)

Section RetryFacts.
Variable env : Env.

Lemma bind_ok {A B : Type} (c : M A) (k : A -> M B) (w w1 : World) (a : A) :
  c w = (Ok a, w1) -> bind c k w = k a w1.
Proof. unfold bind. now intros ->. Qed.

Lemma bind_thrown {A B : Type} (c : M A) (k : A -> M B) (w w1 : World)
      (e : JsError) :
  c w = (Thrown e, w1) -> bind c k w = (Thrown e, w1).
Proof. unfold bind. now intros ->. Qed.

Lemma bind_ok_inv {A B : Type} (c : M A) (k : A -> M B) (w w' : World) (b : B) :
  bind c k w = (Ok b, w') ->
  exists a w1, c w = (Ok a, w1) /\ k a w1 = (Ok b, w').
Proof.
  unfold bind. destruct (c w) as [[a|e] w1]; [| discriminate].
  intros H. now exists a, w1.
Qed.

(** One round of the loop. *)
Lemma retryLoop_step {A : Type} (m : nat) (subject : string) (body : M A)
      (remaining attempts : nat) (w : World) :
  retryLoop env m subject body (S remaining) attempts w
  = match body w with
    | (Ok a, w1) => (Ok (Some a), w1)
    | (Thrown e, w1) =>
        if (S attempts =? m)%nat
        then (Thrown e, reported subject (S attempts) e w1)
        else retryLoop env m subject body remaining (S attempts)
                       (afterFailure env subject (S attempts) e w1)
    end.
Proof.
  cbn [retryLoop]. destruct (body w) as [[a|e] w1]; [reflexivity |].
  unfold bind, consoleError, sleep, throw, afterFailure, reported,
    failureMessage.
  destruct (S attempts =? m)%nat; reflexivity.
Qed.

(** The loop with three attempts, spelled out. *)
Lemma retry_three {A : Type} (subject : string) (body : M A) (w : World) :
  retryLoop env 3 subject body 3 0 w
  = match body w with
    | (Ok a, w1) => (Ok (Some a), w1)
    | (Thrown e1, w1) =>
        match body (afterFailure env subject 1 e1 w1) with
        | (Ok a, w2) => (Ok (Some a), w2)
        | (Thrown e2, w2) =>
            match body (afterFailure env subject 2 e2 w2) with
            | (Ok a, w3) => (Ok (Some a), w3)
            | (Thrown e3, w3) => (Thrown e3, reported subject 3 e3 w3)
            end
        end
    end.
Proof.
  rewrite retryLoop_step. destruct (body w) as [[a|e1] w1]; [reflexivity |].
  cbn [Nat.eqb]. rewrite retryLoop_step.
  destruct (body (afterFailure env subject 1 e1 w1)) as [[a|e2] w2];
    [reflexivity |].
  cbn [Nat.eqb]. rewrite retryLoop_step.
  destruct (body (afterFailure env subject 2 e2 w2)) as [[a|e3] w3];
    reflexivity.
Qed.

(** A result of the loop is the result of one run of the body. *)
Lemma retryLoop_success_inv {A : Type} (m : nat) (subject : string)
      (body : M A) (remaining : nat) :
  forall attempts w a w',
    retryLoop env m subject body remaining attempts w = (Ok (Some a), w') ->
    exists w0, body w0 = (Ok a, w').
Proof.
  induction remaining as [|remaining IH]; intros attempts w a w' H.
  - discriminate.
  - rewrite retryLoop_step in H.
    destruct (body w) as [[x|e] w1] eqn:E.
    + injection H as -> ->. now exists w.
    + destruct (S attempts =? m)%nat; [discriminate |].
      now apply IH in H.
Qed.

(** Started with all its attempts ahead, the loop never falls off its
    end. *)
Lemma retryLoop_not_undefined {A : Type} (m : nat) (subject : string)
      (body : M A) (remaining : nat) :
  forall attempts w w',
    remaining + attempts = m -> 0 < remaining ->
    retryLoop env m subject body remaining attempts w <> (Ok None, w').
Proof.
  induction remaining as [|remaining IH]; intros attempts w w' Hm Hpos; [lia |].
  rewrite retryLoop_step.
  destruct (body w) as [[x|e] w1]; [discriminate |].
  destruct (S attempts =? m)%nat eqn:E; [discriminate |].
  apply Nat.eqb_neq in E. apply IH; lia.
Qed.

Lemma trace_emit (ev : Event) (w : World) :
  trace (emit ev w) = (trace w ++ [ev])%list.
Proof. reflexivity. Qed.

End RetryFacts.

(** C4: [processSitemap] runs its whole [try] block up to three times.
    An attempt that succeeds ends the loop with its result.  After the
    first failure the loop reports it and sleeps [RATE_LIMIT_DELAY * 1],
    after the second [RATE_LIMIT_DELAY * 2], before running the block
    again from its beginning.  Two failures followed by a success give
    that success; a third failure is reported and thrown without any
    further sleep, and the worker posts it as an error message. *)
Theorem C4_retry_policy (env : Env) (sitemapUrl : string) (w : World) :
  let body := processSitemapBody env sitemapUrl in
  let retry := afterFailure env sitemapUrl in
  (forall r w1,
      body w = (Ok r, w1) ->
      processSitemap env sitemapUrl w = (Ok (Some r), w1))
  /\ (forall e1 w1 r w2,
         body w = (Thrown e1, w1) ->
         body (retry 1 e1 w1) = (Ok r, w2) ->
         processSitemap env sitemapUrl w = (Ok (Some r), w2))
  /\ (forall e1 w1 e2 w2 r w3,
         body w = (Thrown e1, w1) ->
         body (retry 1 e1 w1) = (Thrown e2, w2) ->
         body (retry 2 e2 w2) = (Ok r, w3) ->
         processSitemap env sitemapUrl w = (Ok (Some r), w3)
         /\ workerMain env sitemapUrl w = (MsgResult (Some r), w3))
  /\ (forall e1 w1 e2 w2 e3 w3,
         body w = (Thrown e1, w1) ->
         body (retry 1 e1 w1) = (Thrown e2, w2) ->
         body (retry 2 e2 w2) = (Thrown e3, w3) ->
         processSitemap env sitemapUrl w
         = (Thrown e3, reported sitemapUrl 3 e3 w3)
         /\ workerMain env sitemapUrl w
            = (MsgError (message e3), reported sitemapUrl 3 e3 w3))
  /\ (forall n e w0,
         trace (retry n e w0)
         = (trace w0 ++ [EvConsoleError (failureMessage sitemapUrl n e);
                         EvSleep (RATE_LIMIT_DELAY env * n)])%list).
Proof.
  intros body retry.
  assert (Hthree := retry_three env sitemapUrl body w).
  change (retryLoop env 3 sitemapUrl body 3 0 w)
    with (processSitemap env sitemapUrl w) in Hthree.
  fold retry in Hthree.
  repeat apply conj.
  - intros r w1 H1. now rewrite Hthree, H1.
  - intros e1 w1 r w2 H1 H2. now rewrite Hthree, H1, H2.
  - intros e1 w1 e2 w2 r w3 H1 H2 H3.
    assert (Hp : processSitemap env sitemapUrl w = (Ok (Some r), w3))
      by now rewrite Hthree, H1, H2, H3.
    split; [exact Hp |]. unfold workerMain. now rewrite Hp.
  - intros e1 w1 e2 w2 e3 w3 H1 H2 H3.
    assert (Hp : processSitemap env sitemapUrl w
                 = (Thrown e3, reported sitemapUrl 3 e3 w3))
      by now rewrite Hthree, H1, H2, H3.
    split; [exact Hp |]. unfold workerMain. now rewrite Hp.
  - intros n e w0. unfold retry, afterFailure, reported.
    rewrite !trace_emit, <- app_assoc. reflexivity.
Qed.

(** The fetch fails at the first two attempts and works at the third. *)
Lemma C4_retry_witness :
  fst (processSitemap (scriptedEnv demoDocument (fun t => Nat.ltb t 8) (fun _ => false))
                      "https://x.com/sitemap.xml" startWorld)
  = Ok (Some (mkDomainResult "x.com" "output/x.com_2024-01-02T03-04-05-678Z"
                             1 1 "Plumbing Repair NJ")).
Proof.
  destruct (C4_retry_policy
              (scriptedEnv demoDocument (fun t => Nat.ltb t 8) (fun _ => false))
              "https://x.com/sitemap.xml" startWorld)
    as (_ & _ & H & _).
  edestruct H as [Hp _].
  - reflexivity.
  - reflexivity.
  - reflexivity.
  - rewrite Hp. reflexivity.
Defined.

(** ** One attempt of [processSitemap] *)

Section AttemptFacts.
Variable env : Env.

Lemma generateArticleBody_run (keyword : string) (w : World) :
  generateArticleBody env keyword w
  = (completionAnswer env (S (tick w)) keyword,
     emit (EvCompletion keyword) (emit (EvSleep (RATE_LIMIT_DELAY env)) w)).
Proof. reflexivity. Qed.

Lemma generateArticle_three (keyword : string) (w : World) :
  generateArticle env keyword w
  = retryLoop env 3 keyword (generateArticleBody env keyword) 3 0 w.
Proof. reflexivity. Qed.

(** [generateArticle] returns an article or throws. *)
Lemma generateArticle_ok_inv (keyword : string) (w w' : World)
      (x : option string) :
  generateArticle env keyword w = (Ok x, w') -> exists article, x = Some article.
Proof.
  destruct x as [article|]; [now exists article |].
  intros H. exfalso. revert H. rewrite generateArticle_three.
  apply retryLoop_not_undefined; lia.
Qed.

(** [generateArticle] throws only when the completion has failed three
    times, with the sleeps of its own loop in between. *)
Lemma generateArticle_exhausted (keyword : string) (wa wb : World)
      (e : JsError) :
  generateArticle env keyword wa = (Thrown e, wb) ->
  exists e1 e2,
    completionAnswer env (1 + tick wa) keyword = Thrown e1
    /\ completionAnswer env (5 + tick wa) keyword = Thrown e2
    /\ completionAnswer env (9 + tick wa) keyword = Thrown e
    /\ trace wb
       = (trace wa
            ++ [EvSleep (RATE_LIMIT_DELAY env); EvCompletion keyword;
                EvConsoleError (failureMessage keyword 1 e1);
                EvSleep (RATE_LIMIT_DELAY env * 1);
                EvSleep (RATE_LIMIT_DELAY env); EvCompletion keyword;
                EvConsoleError (failureMessage keyword 2 e2);
                EvSleep (RATE_LIMIT_DELAY env * 2);
                EvSleep (RATE_LIMIT_DELAY env); EvCompletion keyword;
                EvConsoleError (failureMessage keyword 3 e)])%list.
Proof.
  rewrite generateArticle_three, retry_three, !generateArticleBody_run.
  cbn [tick emit afterFailure reported plus].
  destruct (completionAnswer env (S (tick wa)) keyword) as [a|e1] eqn:E1;
    [discriminate |].
  rewrite generateArticleBody_run. cbn [tick emit afterFailure reported].
  destruct (completionAnswer env (S (S (S (S (S (tick wa)))))) keyword)
    as [a|e2] eqn:E2; [discriminate |].
  rewrite generateArticleBody_run. cbn [tick emit afterFailure reported].
  destruct (completionAnswer env
              (S (S (S (S (S (S (S (S (S (tick wa)))))))))) keyword)
    as [a|e3] eqn:E3; [discriminate |].
  intros H. injection H as <- <-.
  exists e1, e2. repeat split.
  unfold reported, afterFailure, reported, emit. cbn [trace].
  repeat rewrite <- app_assoc. reflexivity.
Qed.

Lemma randomIndex_lt (r : Rand) (n : nat) : 0 < n -> randomIndex r n < n.
Proof.
  intros Hn. unfold randomIndex.
  apply Nat.Div0.div_lt_upper_bound. nia.
Qed.

Lemma pickedKeyword_In (kws : list string) (w : World) :
  kws <> [] -> In (pickedKeyword env kws w) kws.
Proof.
  intros Hne. unfold pickedKeyword. apply nth_In. apply randomIndex_lt.
  destruct kws; [congruence | simpl; lia].
Qed.

Lemma articleStep_nil (outDir timestamp : string) (w : World) :
  articleStep env outDir timestamp [] w = (Ok "None", w).
Proof. reflexivity. Qed.

(** With keywords at hand the step is: draw, generate, write. *)
Lemma articleStep_cons (outDir timestamp : string) (kws : list string)
      (w : World) :
  kws <> [] ->
  articleStep env outDir timestamp kws w
  = let randomKeyword := pickedKeyword env kws w in
    match generateArticle env randomKeyword (mkWorld (S (tick w)) (trace w)) with
    | (Thrown e, w1) => (Thrown e, w1)
    | (Ok None, w1) =>
        (Thrown (mkError "The data argument must be of type string. Received undefined"),
         w1)
    | (Ok (Some text), w1) =>
        match fsWriteFile env
                (pathJoin env outDir
                   (safeFileName randomKeyword ++ "_" ++ timestamp ++ ".txt"))
                text w1 with
        | (Thrown e, w2) => (Thrown e, w2)
        | (Ok _, w2) => (Ok randomKeyword, w2)
        end
    end.
Proof.
  intros Hne. unfold articleStep.
  destruct kws as [|k kws]; [congruence |].
  cbn [length Nat.ltb Nat.leb]. unfold bind, mathRandom, pickedKeyword, ret.
  cbn [length].
  destruct (generateArticle env _ _) as [[[text|]|e] w1]; try reflexivity.
Qed.

(** A failed article generation fails the step. *)
Lemma articleStep_thrown (outDir timestamp : string) (kws : list string)
      (w w1 : World) (e : JsError) :
  kws <> [] ->
  generateArticle env (pickedKeyword env kws w) (mkWorld (S (tick w)) (trace w))
  = (Thrown e, w1) ->
  articleStep env outDir timestamp kws w = (Thrown e, w1).
Proof.
  intros Hne H. rewrite articleStep_cons by assumption.
  cbv zeta. now rewrite H.
Qed.

(** What a successful step tells. *)
Lemma articleStep_ok_inv (outDir timestamp : string) (kws : list string)
      (w w' : World) (kw : string) :
  articleStep env outDir timestamp kws w = (Ok kw, w') ->
  (kws = [] /\ kw = "None")
  \/ (kws <> [] /\ kw = pickedKeyword env kws w /\ In kw kws
      /\ exists article w1,
          generateArticle env kw (mkWorld (S (tick w)) (trace w))
          = (Ok (Some article), w1)).
Proof.
  destruct kws as [|k kws].
  - rewrite articleStep_nil. intros [= <- _]. now left.
  - assert (Hne : k :: kws <> []) by discriminate.
    rewrite articleStep_cons by assumption. cbv zeta.
    destruct (generateArticle env _ _) as [[[text|]|e] w1] eqn:G;
      try discriminate.
    destruct (fsWriteFile env _ _ w1) as [[u|e] w2]; [| discriminate].
    intros [= <- _]. right.
    split; [assumption |]. split; [reflexivity |].
    split; [now apply pickedKeyword_In |].
    now exists text, w1.
Qed.

(** What a successful first half of the attempt tells: the document
    was fetched and parsed, its entries were read, and four things
    were done to the outside. *)
Lemma collectStep_ok_inv (sitemapUrl : string) (w w1 : World) (c : Collected) :
  collectStep env sitemapUrl w = (Ok c, w1) ->
  exists t data result locs,
    urlHostname env sitemapUrl = Some (cDomain c)
    /\ getAnswer env t sitemapUrl = Ok data
    /\ parseAnswer env data = Ok result
    /\ resultLocs result = Ok locs
    /\ cAcc c = classifyLocs locs
    /\ trace w1
       = (trace w
            ++ [EvMkdir (cOutputDir c); EvGet sitemapUrl;
                EvWriteFile
                  (pathJoin env (cOutputDir c)
                     ("keywords_" ++ cTimestamp c ++ ".txt"))
                  (join (String "010" "") (keywords (cAcc c)));
                EvWriteFile
                  (pathJoin env (cOutputDir c)
                     ("phrases_" ++ cTimestamp c ++ ".txt"))
                  (join (String "010" "") (phrases (cAcc c)))])%list.
Proof.
  unfold collectStep.
  destruct (urlHostname env sitemapUrl) as [dom|] eqn:Hd; [| discriminate].
  intros H.
  apply bind_ok_inv in H as (ts & wa & Hts & H).
  apply bind_ok_inv in H as (u1 & wb & Hmk & H).
  apply bind_ok_inv in H as (data & wc & Hget & H).
  apply bind_ok_inv in H as (result & wd & Hparse & H).
  apply bind_ok_inv in H as (locs & we & Hlocs & H).
  apply bind_ok_inv in H as (u2 & wf & Hwr & H).
  injection H as <- <-.
  unfold getTimestamp in Hts. injection Hts as <- <-.
  unfold fsMkdir in Hmk.
  destruct (mkdirAnswer env _ _); [discriminate |]. injection Hmk as _ <-.
  unfold axiosGet in Hget. injection Hget as Hget <-.
  unfold parseStringPromise in Hparse. injection Hparse as Hparse <-.
  unfold liftOutcome in Hlocs. injection Hlocs as Hlocs <-.
  unfold writeBoth in Hwr.
  destruct (writeAnswer env _ _ _); [discriminate |].
  destruct (writeAnswer env _ _ _); [discriminate |].
  injection Hwr as _ <-.
  eexists _, data, result, locs. cbn [cDomain cAcc cOutputDir cTimestamp].
  repeat split; try eassumption.
  cbn [trace emit]. repeat rewrite <- app_assoc. reflexivity.
Qed.

Lemma processSitemapBody_ok_inv (sitemapUrl : string) (w w' : World)
      (r : DomainResult) :
  processSitemapBody env sitemapUrl w = (Ok r, w') ->
  exists c w1,
    collectStep env sitemapUrl w = (Ok c, w1)
    /\ articleStep env (cOutputDir c) (cTimestamp c) (keywords (cAcc c)) w1
       = (Ok (processedKeyword r), w')
    /\ domain r = cDomain c
    /\ outputDir r = cOutputDir c
    /\ keywordCount r = length (keywords (cAcc c))
    /\ phraseCount r = length (phrases (cAcc c)).
Proof.
  unfold processSitemapBody. intros H.
  apply bind_ok_inv in H as (c & w1 & Hc & H).
  apply bind_ok_inv in H as (kw & w2 & Ha & H).
  injection H as <- <-. now exists c, w1.
Qed.

Lemma processSitemap_ok_inv (sitemapUrl : string) (w w' : World)
      (r : DomainResult) :
  processSitemap env sitemapUrl w = (Ok (Some r), w') ->
  exists w0, processSitemapBody env sitemapUrl w0 = (Ok r, w').
Proof. apply retryLoop_success_inv. Qed.

(** Every keyword ends with [NJ], has two words, and is not the
    sentinel. *)
Lemma keywords_shape (locs : list string) (k : string) :
  In k (keywords (classifyLocs locs)) ->
  endsWith k "NJ" = true /\ isValidKeyword k = true /\ k <> "None".
Proof.
  destruct (classifyLocs_filter locs) as [-> _].
  intros H. apply filter_In in H as [_ H]. unfold keywordTest in H.
  apply andb_true_iff in H as [He Hv].
  repeat split; try assumption.
  intros ->. discriminate.
Qed.

End AttemptFacts.

Section OutcomeFacts.
Variable env : Env.

(** A failed article generation fails the whole attempt. *)
Lemma processSitemapBody_article_thrown (sitemapUrl : string)
      (w w1 w2 : World) (c : Collected) (e : JsError) :
  collectStep env sitemapUrl w = (Ok c, w1) ->
  keywords (cAcc c) <> [] ->
  generateArticle env (pickedKeyword env (keywords (cAcc c)) w1)
                  (mkWorld (S (tick w1)) (trace w1)) = (Thrown e, w2) ->
  processSitemapBody env sitemapUrl w = (Thrown e, w2).
Proof.
  intros Hc Hne Hg. unfold processSitemapBody.
  rewrite (bind_ok _ _ _ _ _ Hc).
  apply bind_thrown. now apply articleStep_thrown.
Qed.

(** What a [Success] tells about the attempt that produced it. *)
Lemma processSitemap_success (sitemapUrl : string) (w w' : World)
      (r : DomainResult) :
  processSitemap env sitemapUrl w = (Ok (Some r), w') ->
  exists t data result locs,
    getAnswer env t sitemapUrl = Ok data
    /\ parseAnswer env data = Ok result
    /\ resultLocs result = Ok locs
    /\ keywordCount r = length (keywords (classifyLocs locs))
    /\ phraseCount r = length (phrases (classifyLocs locs))
    /\ ((keywords (classifyLocs locs) = [] /\ processedKeyword r = "None")
        \/ (keywords (classifyLocs locs) <> []
            /\ In (processedKeyword r) (keywords (classifyLocs locs))
            /\ exists article wa wb,
                generateArticle env (processedKeyword r) wa
                = (Ok (Some article), wb))).
Proof.
  intros H. apply processSitemap_ok_inv in H as [w0 H].
  apply processSitemapBody_ok_inv in H
    as (c & w1 & Hc & Ha & _ & _ & Hk & Hp).
  apply collectStep_ok_inv in Hc
    as (t & data & result & locs & _ & Hget & Hparse & Hlocs & Hacc & _).
  rewrite Hacc in *.
  exists t, data, result, locs.
  repeat (split; [assumption |]).
  apply articleStep_ok_inv in Ha as [[Hnil Hnone] | (Hne & _ & Hin & article & wb & Hg)].
  - now left.
  - right. split; [assumption |]. split; [assumption |].
    now exists article, (mkWorld (S (tick w1)) (trace w1)), wb.
Qed.

Lemma noEntries_resultLocs (result : XmlResult) :
  noEntries result -> exists e, resultLocs result = Thrown e.
Proof.
  unfold resultLocs. intros [-> | (us & -> & ->)]; eexists; reflexivity.
Qed.

(** When whatever is fetched has no entries, an attempt cannot
    succeed. *)
Lemma processSitemapBody_noEntries (sitemapUrl : string) :
  (forall t data result,
      getAnswer env t sitemapUrl = Ok data ->
      parseAnswer env data = Ok result -> noEntries result) ->
  forall w, exists e w1,
      processSitemapBody env sitemapUrl w = (Thrown e, w1).
Proof.
  intros Hdoc w.
  destruct (processSitemapBody env sitemapUrl w) as [[r|e] w1] eqn:E;
    [| now exists e, w1].
  exfalso.
  apply processSitemapBody_ok_inv in E as (c & w0 & Hc & _).
  apply collectStep_ok_inv in Hc
    as (t & data & result & locs & _ & Hget & Hparse & Hlocs & _).
  destruct (noEntries_resultLocs result (Hdoc _ _ _ Hget Hparse)) as [e He].
  congruence.
Qed.

End OutcomeFacts.

(** C5: in a [Success] the processed keyword is the string [None]
    exactly when the keyword count is zero, that is when the attempt
    that succeeded classified no keyword.  With keywords at hand the
    processed keyword is one of them and [generateArticle] returned an
    article for it; an attempt whose article generation throws does not
    return at all, it throws the same error. *)
Theorem C5_processed_keyword_none_iff_no_keywords
        (env : Env) (sitemapUrl : string) (w w' : World) (r : DomainResult) :
  processSitemap env sitemapUrl w = (Ok (Some r), w') ->
  (processedKeyword r = "None" <-> keywordCount r = 0)
  /\ (exists t data result locs,
         getAnswer env t sitemapUrl = Ok data
         /\ parseAnswer env data = Ok result
         /\ resultLocs result = Ok locs
         /\ keywordCount r = length (keywords (classifyLocs locs))
         /\ (keywords (classifyLocs locs) = [] -> processedKeyword r = "None")
         /\ (keywords (classifyLocs locs) <> [] ->
             In (processedKeyword r) (keywords (classifyLocs locs))
             /\ processedKeyword r <> "None"
             /\ exists article wa wb,
                 generateArticle env (processedKeyword r) wa
                 = (Ok (Some article), wb)))
  /\ (forall w0 w1 w2 c e,
         collectStep env sitemapUrl w0 = (Ok c, w1) ->
         keywords (cAcc c) <> [] ->
         generateArticle env (pickedKeyword env (keywords (cAcc c)) w1)
                         (mkWorld (S (tick w1)) (trace w1)) = (Thrown e, w2) ->
         processSitemapBody env sitemapUrl w0 = (Thrown e, w2)).
Proof.
  intros H.
  destruct (processSitemap_success env _ _ _ _ H)
    as (t & data & result & locs & Hget & Hparse & Hlocs & Hk & _ & Hcase).
  split; [| split].
  - rewrite Hk. destruct Hcase as [[Hnil Hnone] | (Hne & Hin & _)].
    + rewrite Hnil. simpl. tauto.
    + apply keywords_shape in Hin as (_ & _ & Hno).
      destruct (keywords (classifyLocs locs)); [congruence |].
      simpl. split; [contradiction | discriminate].
  - exists t, data, result, locs.
    repeat (split; [assumption |]).
    split.
    + intros Hnil. destruct Hcase as [[_ Hnone] | (Hne & _)]; congruence.
    + intros Hne. destruct Hcase as [[Hnil _] | (_ & Hin & Hart)]; [congruence |].
      split; [assumption |]. split; [| assumption].
      now apply keywords_shape in Hin.
  - intros w0 w1 w2 c e. apply processSitemapBody_article_thrown.
Qed.

Lemma C5_processed_keyword_witness :
  processedKeyword
    (mkDomainResult "x.com" "output/x.com_2024-01-02T03-04-05-678Z"
                    1 1 "Plumbing Repair NJ") = "None"
  <-> keywordCount
        (mkDomainResult "x.com" "output/x.com_2024-01-02T03-04-05-678Z"
                        1 1 "Plumbing Repair NJ") = 0.
Proof.
  eapply proj1.
  eapply (C5_processed_keyword_none_iff_no_keywords
            (scriptedEnv demoDocument (fun _ => false) (fun _ => false))
            "https://x.com/sitemap.xml" startWorld).
  reflexivity.
Defined.

(** C10: in a [Success] the processed keyword is the string [None] or
    one of the keywords that the successful attempt classified; every
    such keyword ends with [NJ], has at least two words and differs from
    [None]. *)
Theorem C10_processed_keyword_is_none_or_keyword
        (env : Env) (sitemapUrl : string) (w w' : World) (r : DomainResult) :
  processSitemap env sitemapUrl w = (Ok (Some r), w') ->
  exists t data result locs,
    getAnswer env t sitemapUrl = Ok data
    /\ parseAnswer env data = Ok result
    /\ resultLocs result = Ok locs
    /\ keywordCount r = length (keywords (classifyLocs locs))
    /\ phraseCount r = length (phrases (classifyLocs locs))
    /\ (processedKeyword r = "None"
        \/ In (processedKeyword r) (keywords (classifyLocs locs)))
    /\ (forall k, In k (keywords (classifyLocs locs)) ->
                  endsWith k "NJ" = true /\ isValidKeyword k = true
                  /\ k <> "None").
Proof.
  intros H.
  destruct (processSitemap_success env _ _ _ _ H)
    as (t & data & result & locs & Hget & Hparse & Hlocs & Hk & Hp & Hcase).
  exists t, data, result, locs.
  repeat (split; [assumption |]).
  split.
  - destruct Hcase as [[_ Hnone] | (_ & Hin & _)]; [now left | now right].
  - intros k. apply keywords_shape.
Qed.

Lemma C10_processed_keyword_witness :
  exists locs,
    1 = length (keywords (classifyLocs locs))
    /\ ("Plumbing Repair NJ" = "None"
        \/ In "Plumbing Repair NJ" (keywords (classifyLocs locs))).
Proof.
  destruct (C10_processed_keyword_is_none_or_keyword
              (scriptedEnv demoDocument (fun _ => false) (fun _ => false))
              "https://x.com/sitemap.xml" startWorld
              _ (mkDomainResult "x.com" "output/x.com_2024-01-02T03-04-05-678Z"
                                1 1 "Plumbing Repair NJ") eq_refl)
    as (t & data & result & locs & _ & _ & _ & Hk & _ & Hin & _).
  exists locs. split; assumption.
Defined.

(** C9: a parsed document without [urlset] root, or whose [urlset] has
    no [url] entries, makes the access to the entries throw.  When what
    is fetched for the sitemap is always such a document, each of the
    three attempts throws, the third error is thrown by [processSitemap]
    and posted by the worker as an error: there is no [Success] with
    empty lists. *)
Theorem C9_document_without_entries_fails
        (env : Env) (sitemapUrl : string) (w : World) :
  (forall t data result,
      getAnswer env t sitemapUrl = Ok data ->
      parseAnswer env data = Ok result -> noEntries result) ->
  (forall result, noEntries result -> exists e, resultLocs result = Thrown e)
  /\ exists e1 w1 e2 w2 e3 w3,
      processSitemapBody env sitemapUrl w = (Thrown e1, w1)
      /\ processSitemapBody env sitemapUrl (afterFailure env sitemapUrl 1 e1 w1)
         = (Thrown e2, w2)
      /\ processSitemapBody env sitemapUrl (afterFailure env sitemapUrl 2 e2 w2)
         = (Thrown e3, w3)
      /\ processSitemap env sitemapUrl w
         = (Thrown e3, reported sitemapUrl 3 e3 w3)
      /\ workerMain env sitemapUrl w
         = (MsgError (message e3), reported sitemapUrl 3 e3 w3).
Proof.
  intros Hdoc. split; [apply noEntries_resultLocs |].
  pose proof (processSitemapBody_noEntries env sitemapUrl Hdoc) as Hfail.
  destruct (Hfail w) as (e1 & w1 & H1).
  destruct (Hfail (afterFailure env sitemapUrl 1 e1 w1)) as (e2 & w2 & H2).
  destruct (Hfail (afterFailure env sitemapUrl 2 e2 w2)) as (e3 & w3 & H3).
  exists e1, w1, e2, w2, e3, w3.
  assert (Hp : processSitemap env sitemapUrl w
               = (Thrown e3, reported sitemapUrl 3 e3 w3)).
  { change (processSitemap env sitemapUrl w)
      with (retryLoop env 3 sitemapUrl (processSitemapBody env sitemapUrl) 3 0 w).
    now rewrite retry_three, H1, H2, H3. }
  repeat (split; [assumption |]).
  unfold workerMain. now rewrite Hp.
Qed.

(** The document has another root than [urlset]. *)
Lemma C9_document_without_entries_witness :
  exists e w',
    processSitemap (scriptedEnv (mkXmlResult None) (fun _ => false) (fun _ => false))
                   "https://x.com/sitemap.xml" startWorld
    = (Thrown e, w').
Proof.
  destruct (C9_document_without_entries_fails
              (scriptedEnv (mkXmlResult None) (fun _ => false) (fun _ => false))
              "https://x.com/sitemap.xml" startWorld)
    as (_ & e1 & w1 & e2 & w2 & e3 & w3 & _ & _ & _ & Hp & _).
  - intros t data result _ Hparse. injection Hparse as <-. left. reflexivity.
  - exists e3, (reported "https://x.com/sitemap.xml" 3 e3 w3). exact Hp.
Defined.

(** An empty [urlset] behaves the same. *)
Example empty_urlset_fails :
  fst (processSitemap
         (scriptedEnv (mkXmlResult (Some (mkUrlSet None)))
                      (fun _ => false) (fun _ => false))
         "https://x.com/sitemap.xml" startWorld)
  = Thrown (mkError "Cannot read properties of undefined (reading 'map')").
Proof. reflexivity. Qed.

(** ** Article generation inside the attempt *)

(** C6: [generateArticle] throws only after its completion request has
    failed three times.  The error leaves the [try] block of
    [processSitemap] as the failure of the whole attempt: the failure is
    reported, the loop sleeps and starts the block again at its first
    step, so that the directory is made, the sitemap fetched and the two
    lists written once more.  This holds at the first and at the second
    attempt; at the third the error is thrown on. *)
Theorem C6_article_exhaustion_restarts_whole_task
        (env : Env) (sitemapUrl : string) (w w1 w2 : World)
        (c : Collected) (e : JsError) :
  collectStep env sitemapUrl w = (Ok c, w1) ->
  keywords (cAcc c) <> [] ->
  generateArticle env (pickedKeyword env (keywords (cAcc c)) w1)
                  (mkWorld (S (tick w1)) (trace w1)) = (Thrown e, w2) ->
  let body := processSitemapBody env sitemapUrl in
  let kw := pickedKeyword env (keywords (cAcc c)) w1 in
  (exists e1 e2,
      completionAnswer env (2 + tick w1) kw = Thrown e1
      /\ completionAnswer env (6 + tick w1) kw = Thrown e2
      /\ completionAnswer env (10 + tick w1) kw = Thrown e)
  /\ body w = (Thrown e, w2)
  /\ processSitemap env sitemapUrl w
     = retryLoop env 3 sitemapUrl body 2 1 (afterFailure env sitemapUrl 1 e w2)
  /\ retryLoop env 3 sitemapUrl body 2 1 w
     = retryLoop env 3 sitemapUrl body 1 2 (afterFailure env sitemapUrl 2 e w2)
  /\ retryLoop env 3 sitemapUrl body 1 2 w
     = (Thrown e, reported sitemapUrl 3 e w2)
  /\ (forall n remaining,
         retryLoop env 3 sitemapUrl body (S remaining) n
                   (afterFailure env sitemapUrl n e w2)
         = match body (afterFailure env sitemapUrl n e w2) with
           | (Ok r, w3) => (Ok (Some r), w3)
           | (Thrown e', w3) =>
               if (S n =? 3)%nat
               then (Thrown e', reported sitemapUrl (S n) e' w3)
               else retryLoop env 3 sitemapUrl body remaining (S n)
                              (afterFailure env sitemapUrl (S n) e' w3)
           end)
  /\ (forall n c' w3,
         collectStep env sitemapUrl (afterFailure env sitemapUrl n e w2)
         = (Ok c', w3) ->
         trace w3
         = (trace w2
              ++ [EvConsoleError (failureMessage sitemapUrl n e);
                  EvSleep (RATE_LIMIT_DELAY env * n);
                  EvMkdir (cOutputDir c'); EvGet sitemapUrl;
                  EvWriteFile
                    (pathJoin env (cOutputDir c')
                       ("keywords_" ++ cTimestamp c' ++ ".txt"))
                    (join (String "010" "") (keywords (cAcc c')));
                  EvWriteFile
                    (pathJoin env (cOutputDir c')
                       ("phrases_" ++ cTimestamp c' ++ ".txt"))
                    (join (String "010" "") (phrases (cAcc c')))])%list).
Proof.
  intros Hc Hne Hg body kw.
  assert (Hbody : body w = (Thrown e, w2))
    by (eapply processSitemapBody_article_thrown; eassumption).
  split.
  { destruct (generateArticle_exhausted env _ _ _ _ Hg)
      as (e1 & e2 & H1 & H2 & H3 & _).
    exists e1, e2. cbn [tick plus] in *. auto. }
  split; [exact Hbody |].
  split.
  { change (processSitemap env sitemapUrl w)
      with (retryLoop env 3 sitemapUrl body 3 0 w).
    now rewrite retryLoop_step, Hbody. }
  split; [now rewrite retryLoop_step, Hbody |].
  split; [now rewrite retryLoop_step, Hbody |].
  split; [intros n remaining; apply retryLoop_step |].
  intros n c' w3 Hc'.
  apply collectStep_ok_inv in Hc' as (_ & _ & _ & _ & _ & _ & _ & _ & _ & Htr).
  rewrite Htr. unfold afterFailure, reported. rewrite !trace_emit.
  repeat rewrite <- app_assoc. reflexivity.
Qed.

(** The completion fails all through the first attempt and works in the
    second: the run has fetched the sitemap twice. *)
Lemma C6_article_exhaustion_witness :
  fst (processSitemapBody
         (scriptedEnv demoDocument (fun _ => false) (fun t => Nat.ltb t 20))
         "https://x.com/sitemap.xml" startWorld)
  = Thrown (mkError "429").
Proof.
  edestruct (C6_article_exhaustion_restarts_whole_task
               (scriptedEnv demoDocument (fun _ => false) (fun t => Nat.ltb t 20))
               "https://x.com/sitemap.xml" startWorld)
    as (_ & Hbody & _).
  - lazy. reflexivity.
  - lazy. discriminate.
  - lazy. reflexivity.
  - rewrite Hbody. reflexivity.
Defined.

Example article_exhaustion_fetches_twice :
  filter (fun ev => match ev with EvGet _ => true | _ => false end)
         (trace (snd (processSitemap
                        (scriptedEnv demoDocument (fun _ => false)
                                     (fun t => Nat.ltb t 20))
                        "https://x.com/sitemap.xml" startWorld)))
  = [EvGet "https://x.com/sitemap.xml"; EvGet "https://x.com/sitemap.xml"].
Proof. reflexivity. Qed.

(** ** The scheduler *)

Section SchedulerFacts.
Variable env : Env.

Lemma launchesSpaced_app (ms : nat) (j k : list SchedEvent) :
  launchesSpaced ms j = true -> launchesSpaced ms k = true ->
  launchesSpaced ms (j ++ k)%list = true.
Proof.
  intros Hj Hk. induction j as [|ev j IH]; [exact Hk |].
  destruct ev as [worker u | ms'].
  - cbn [launchesSpaced] in Hj.
    destruct j as [|[worker' u' | ms''] j']; try discriminate.
    apply andb_true_iff in Hj as [Hms Hj].
    change (launchesSpaced ms ((SLaunch worker u :: SSleep ms'' :: j') ++ k)%list)
      with ((ms'' =? ms)%nat && launchesSpaced ms ((SSleep ms'' :: j') ++ k)%list).
    rewrite Hms. simpl andb. now apply IH.
  - cbn [launchesSpaced] in Hj.
    change (launchesSpaced ms ((SSleep ms' :: j) ++ k)%list)
      with (launchesSpaced ms (j ++ k)%list).
    now apply IH.
Qed.

Lemma initial_invariant (urls : list string) :
  schedulerInvariant env (initial urls).
Proof.
  unfold schedulerInvariant, initial. cbn.
  split; [apply empty_subseteq |]. split; [| reflexivity].
  rewrite map_size_empty. lia.
Qed.

(** A turn of the coordinator while the map is full: nothing but a
    sleep. *)
Lemma coordinatorTurn_full (s s' : Sched) :
  coordinatorTurn env s = Some s' ->
  MAX_WORKERS env <= size (workers s) ->
  queue s' = queue s /\ workers s' = workers s /\ alive s' = alive s
  /\ journal s' = (journal s ++ [SSleep (RATE_LIMIT_DELAY env)])%list.
Proof.
  unfold coordinatorTurn. intros H Hfull.
  destruct (queue s) as [|u rest] eqn:Q; [discriminate |].
  apply Nat.leb_le in Hfull. rewrite Hfull in H.
  injection H as <-. cbn. repeat split; congruence.
Qed.

(** A turn of the coordinator with a free slot: the next URL is
    launched, and the sleep follows. *)
Lemma coordinatorTurn_free (s s' : Sched) :
  coordinatorTurn env s = Some s' ->
  size (workers s) < MAX_WORKERS env ->
  exists sitemapUrl,
    queue s = sitemapUrl :: queue s'
    /\ workers s' = <[nextWorker s := sitemapUrl]> (workers s)
    /\ alive s' = {[nextWorker s]} ∪ alive s
    /\ journal s'
       = (journal s ++ [SLaunch (nextWorker s) sitemapUrl;
                        SSleep (RATE_LIMIT_DELAY env)])%list.
Proof.
  unfold coordinatorTurn. intros H Hfree.
  destruct (queue s) as [|u rest] eqn:Q; [discriminate |].
  assert (Hl : (MAX_WORKERS env <=? size (workers s))%nat = false)
    by (apply Nat.leb_gt; exact Hfree).
  rewrite Hl in H. injection H as <-. now exists u.
Qed.

Lemma size_insert_le (m : gmap nat string) (i : nat) (x : string) :
  size (<[i := x]> m) <= S (size m).
Proof. rewrite map_size_insert. destruct (m !! i); simpl; lia. Qed.

Lemma size_delete_le (m : gmap nat string) (i : nat) :
  size (delete i m) <= size m.
Proof. rewrite map_size_delete. destruct (m !! i); simpl; lia. Qed.

Lemma step_invariant (s s' : Sched) :
  step env s s' -> schedulerInvariant env s -> schedulerInvariant env s'.
Proof.
  intros Hstep (Hsub & Hsize & Hsp).
  destruct Hstep as [s s' Hturn | s worker m Hin | s worker Hin
                     | s worker Hsome Hnot].
  - destruct (le_lt_dec (MAX_WORKERS env) (size (workers s))) as [Hfull | Hfree].
    + destruct (coordinatorTurn_full _ _ Hturn Hfull) as (_ & Hw & Ha & Hj).
      unfold schedulerInvariant. rewrite Hw, Ha, Hj.
      split; [assumption |]. split; [assumption |].
      apply launchesSpaced_app; [assumption | reflexivity].
    + destruct (coordinatorTurn_free _ _ Hturn Hfree) as (u & _ & Hw & Ha & Hj).
      unfold schedulerInvariant. rewrite Hw, Ha, Hj.
      split; [rewrite dom_insert_L; now apply union_mono_l |].
      split; [pose proof (size_insert_le (workers s) (nextWorker s) u); lia |].
      apply launchesSpaced_app; [assumption |].
      cbn. now rewrite Nat.eqb_refl.
  - unfold schedulerInvariant, onMessage.
    destruct m as [[r|]|text]; cbn; auto.
  - unfold schedulerInvariant, threadEnds. cbn.
    split; [| auto].
    intros x Hx. apply elem_of_difference in Hx as [Hx _]. now apply Hsub.
  - unfold schedulerInvariant, onExit. cbn.
    split.
    { rewrite dom_delete_L. intros x Hx. apply elem_of_difference.
      split; [now apply Hsub |].
      intros Hs. apply elem_of_singleton in Hs. now subst. }
    split; [pose proof (size_delete_le (workers s) worker); lia | assumption].
Qed.

Lemma reachable_invariant (urls : list string) (s : Sched) :
  reachable env urls s -> schedulerInvariant env s.
Proof.
  induction 1 as [| s s' _ IH Hstep].
  - apply initial_invariant.
  - eapply step_invariant; eassumption.
Qed.

Lemma startsWith_app (a b : string) : startsWith (a ++ b)%string a = true.
Proof.
  induction a as [|c a IH]; [reflexivity |].
  rewrite append_cons. simpl. now rewrite Ascii.eqb_refl, IH.
Qed.

Lemma summaryLine_own (r : DomainResult) :
  startsWith (summaryLine r) (domain r) = true.
Proof. unfold summaryLine. apply startsWith_app. Qed.

(** A result gets its own line when no earlier line starts with its
    domain. *)
Lemma find_own_line (before after : list DomainResult) (r : DomainResult) :
  Forall (fun r' => startsWith (summaryLine r') (domain r) = false) before ->
  find (fun s => startsWith s (domain r))
       (map summaryLine (before ++ r :: after)%list)
  = Some (summaryLine r).
Proof.
  induction 1 as [|r' before Hr' _ IH]; simpl.
  - now rewrite summaryLine_own.
  - now rewrite Hr'.
Qed.

End SchedulerFacts.

(** C7: in every state the dispatch loop can reach, the worker threads
    still alive are among the entries of [workers], which number at most
    [MAX_WORKERS]; so at most [MAX_WORKERS] units run at once.  While
    the map is full a turn of the coordinator launches nothing and
    sleeps [RATE_LIMIT_DELAY]; with a free slot it launches the next URL
    and sleeps [RATE_LIMIT_DELAY] right after, so that in the journal
    every launch is directly followed by that sleep. *)
Theorem C7_bounded_concurrency (env : Env) (urls : list string) (s : Sched) :
  reachable env urls s ->
  size (alive s) <= MAX_WORKERS env
  /\ size (workers s) <= MAX_WORKERS env
  /\ alive s ⊆ dom (workers s)
  /\ launchesSpaced (RATE_LIMIT_DELAY env) (journal s) = true
  /\ (forall s', coordinatorTurn env s = Some s' ->
                 MAX_WORKERS env <= size (workers s) ->
                 queue s' = queue s /\ workers s' = workers s
                 /\ alive s' = alive s
                 /\ journal s'
                    = (journal s ++ [SSleep (RATE_LIMIT_DELAY env)])%list)
  /\ (forall s', coordinatorTurn env s = Some s' ->
                 size (workers s) < MAX_WORKERS env ->
                 exists sitemapUrl,
                   queue s = sitemapUrl :: queue s'
                   /\ workers s' = <[nextWorker s := sitemapUrl]> (workers s)
                   /\ alive s' = {[nextWorker s]} ∪ alive s
                   /\ journal s'
                      = (journal s ++ [SLaunch (nextWorker s) sitemapUrl;
                                       SSleep (RATE_LIMIT_DELAY env)])%list).
Proof.
  intros Hreach.
  destruct (reachable_invariant env urls s Hreach) as (Hsub & Hsize & Hsp).
  split.
  { apply subseteq_size in Hsub. rewrite size_dom in Hsub. lia. }
  split; [assumption |]. split; [assumption |]. split; [assumption |].
  split.
  - intros s'. apply coordinatorTurn_full.
  - intros s'. apply coordinatorTurn_free.
Qed.

(** One URL, two slots: after the first turn one worker runs. *)
Lemma C7_bounded_concurrency_witness :
  size (alive (afterFirstTurn calmEnv ["https://x.com/sitemap.xml"]))
  <= MAX_WORKERS calmEnv.
Proof.
  apply (C7_bounded_concurrency calmEnv ["https://x.com/sitemap.xml"]).
  eapply reach_step; [apply reach_initial |].
  apply step_turn. reflexivity.
Defined.

(** ** The summary step *)

(** C8 at [example.com] followed by [example.co]: the line looked up for
    the second result is the first line that starts with [example.co],
    which is the line of [example.com]; the summary file in the
    directory of [example.co] reports the counts and the keyword of
    [example.com]. *)
Theorem C8_summary_line_of_other_result :
  summaryWrites calmEnv "2024-01-02T03-05-00-000Z" [resultCom; resultCo]
  = [("output/example.com_2024-01-02T03-04-05-678Z/summary_2024-01-02T03-05-00-000Z.txt",
      Some "example.com: 3 keywords, 4 phrases, processed keyword: Plumbing Repair NJ");
     ("output/example.co_2024-01-02T03-04-09-120Z/summary_2024-01-02T03-05-00-000Z.txt",
      Some "example.com: 3 keywords, 4 phrases, processed keyword: Plumbing Repair NJ")]
  /\ summaryLine resultCo
     = "example.co: 0 keywords, 1 phrases, processed keyword: None".
Proof. split; reflexivity. Qed.

(** In the other order each result gets its own line. *)
Example summary_other_order :
  map snd (summaryWrites calmEnv "2024-01-02T03-05-00-000Z" [resultCo; resultCom])
  = [Some (summaryLine resultCo); Some (summaryLine resultCom)].
Proof. reflexivity. Qed.

(* ===================================================================== *)
(** * Further properties of the code                                      *)
(* ===================================================================== *)

(** ** Helpers *)

Section MoreStringFacts.

Lemma length_mapChars (f : ascii -> ascii) (s : string) :
  String.length (mapChars f s) = String.length s.
Proof. induction s as [|c r IH]; simpl; [reflexivity | now rewrite IH]. Qed.

Lemma mapChars_mapChars (f g : ascii -> ascii) (s : string) :
  mapChars f (mapChars g s) = mapChars (fun c => f (g c)) s.
Proof. induction s as [|c r IH]; simpl; [reflexivity | now rewrite IH]. Qed.

Lemma mapChars_ext (f g : ascii -> ascii) (s : string) :
  (forall c, f c = g c) -> mapChars f s = mapChars g s.
Proof.
  intros H. induction s as [|c r IH]; simpl; [reflexivity | now rewrite H, IH].
Qed.

Lemma hasChar_mapChars_never (f : ascii -> ascii) (d : ascii) (s : string) :
  (forall c, Ascii.eqb (f c) d = false) -> hasChar d (mapChars f s) = false.
Proof.
  intros H. induction s as [|c r IH]; simpl; [reflexivity | now rewrite H, IH].
Qed.

Lemma allChars_mapChars (p : ascii -> bool) (f : ascii -> ascii) (s : string) :
  (forall c, p (f c) = true) -> allChars p (mapChars f s) = true.
Proof.
  intros H. induction s as [|c r IH]; simpl; [reflexivity | now rewrite H, IH].
Qed.

(** Cutting at a separator is cutting both sides of it. *)
Lemma split_app_sep (sep : ascii) (a b : string) :
  split sep (a ++ String sep b)%string = (split sep a ++ split sep b)%list.
Proof.
  induction a as [|c r IH].
  - rewrite append_nil_l. simpl. now rewrite Ascii.eqb_refl.
  - rewrite append_cons. simpl. rewrite IH.
    destruct (Ascii.eqb c sep); [reflexivity |].
    destruct (split sep r) as [|w ws] eqn:E; [| reflexivity].
    now apply split_not_nil in E.
Qed.

Lemma safe_char_of_any (c : ascii) :
  safeChar (lowerChar (if isLower c || isUpper c || isDigit c
                       then c else "_"%char)) = true.
Proof. destruct c as [[] [] [] [] [] [] [] []]; reflexivity. Qed.

Lemma safe_char_fixed (c : ascii) :
  safeChar c = true ->
  lowerChar (if isLower c || isUpper c || isDigit c then c else "_"%char) = c.
Proof. destruct c as [[] [] [] [] [] [] [] []]; intros H; try reflexivity; discriminate H. Qed.

Lemma upperChar_upperChar (c : ascii) : upperChar (upperChar c) = upperChar c.
Proof. destruct c as [[] [] [] [] [] [] [] []]; reflexivity. Qed.

Lemma upperChar_lowerChar (c : ascii) : upperChar (lowerChar c) = upperChar c.
Proof. destruct c as [[] [] [] [] [] [] [] []]; reflexivity. Qed.

Lemma matchesAtCI_mapChars (f : ascii -> ascii) (p : string) :
  (forall c, upperChar (f c) = upperChar c) ->
  forall s, matchesAtCI p (mapChars f s) = matchesAtCI p s.
Proof.
  intros Hf. induction p as [|a p IH]; intros s; [now destruct s |].
  destruct s as [|b s]; simpl; [reflexivity |].
  now rewrite Hf, IH.
Qed.

Lemma testAltsCI_mapChars (f : ascii -> ascii) (alts : list string) (s : string) :
  (forall c, upperChar (f c) = upperChar c) ->
  testAltsCI alts (mapChars f s) = testAltsCI alts s.
Proof.
  intros Hf.
  assert (H : forall s', existsb (fun a => matchesAtCI a (mapChars f s')) alts
                         = existsb (fun a => matchesAtCI a s') alts).
  { intros s'. induction alts as [|a alts IHa]; simpl; [reflexivity |].
    now rewrite matchesAtCI_mapChars, IHa. }
  induction s as [|c r IH].
  - reflexivity.
  - change (mapChars f (String c r)) with (String (f c) (mapChars f r)).
    cbn [testAltsCI]. rewrite IH.
    change (String (f c) (mapChars f r)) with (mapChars f (String c r)).
    now rewrite H.
Qed.

End MoreStringFacts.

(** ** [getTimestamp], the file name of the article, [isValidKeyword] *)

(** X1: the timestamp that [getTimestamp] returns contains neither a
    colon nor a period, and is as long as the ISO text of the clock it
    was made from; taking it leaves no trace. *)
Theorem X1_getTimestamp_is_file_safe (env : Env) (w : World) :
  exists ts,
    getTimestamp env w = (Ok ts, mkWorld (S (tick w)) (trace w))
    /\ hasChar ":" ts = false
    /\ hasChar "." ts = false
    /\ String.length ts = String.length (clockIso env (tick w)).
Proof.
  eexists. split; [reflexivity |].
  split; [| split].
  - apply hasChar_mapChars_never. intros c.
    destruct (Ascii.eqb c ":") eqn:E1; [reflexivity |].
    destruct (Ascii.eqb c "."); [reflexivity | exact E1].
  - apply hasChar_mapChars_never. intros c.
    destruct (Ascii.eqb c ".") eqn:E1;
      [now rewrite orb_true_r | now rewrite orb_false_r; destruct (Ascii.eqb c ":")].
  - apply length_mapChars.
Qed.

(** X2: the file name made from the chosen keyword consists of
    lower-case letters, digits and underscores only, is as long as the
    keyword, and is left as it is when the operation is applied again. *)
Theorem X2_safeFileName_shape (keyword : string) :
  allChars safeChar (safeFileName keyword) = true
  /\ String.length (safeFileName keyword) = String.length keyword
  /\ safeFileName (safeFileName keyword) = safeFileName keyword.
Proof.
  unfold safeFileName, toLowerCase. rewrite !mapChars_mapChars.
  split; [| split].
  - apply allChars_mapChars. apply safe_char_of_any.
  - apply length_mapChars.
  - apply mapChars_ext. intros c.
    apply safe_char_fixed. apply safe_char_of_any.
Qed.

(** X3: a text without a space is never a valid keyword, whatever else
    it contains; in particular the empty text is not. *)
Theorem X3_isValidKeyword_needs_a_space (keyword : string) :
  hasChar " " keyword = false -> isValidKeyword keyword = false.
Proof.
  intros H. unfold isValidKeyword. rewrite (split_no_sep _ _ H).
  simpl. now destruct (truthy (trim keyword)).
Qed.

Lemma X3_isValidKeyword_witness :
  isValidKeyword "plumbing-repair-nj" = false.
Proof. apply X3_isValidKeyword_needs_a_space. reflexivity. Defined.

(** X4: spaces around a text do not count as words: a space put in
    front of it or after it leaves [isValidKeyword] unchanged. *)
Theorem X4_isValidKeyword_ignores_padding (keyword : string) :
  isValidKeyword (" " ++ keyword)%string = isValidKeyword keyword
  /\ isValidKeyword (keyword ++ " ")%string = isValidKeyword keyword.
Proof.
  unfold isValidKeyword. split.
  - reflexivity.
  - rewrite (split_app_sep " " keyword ""), filter_app. simpl.
    now rewrite app_nil_r.
Qed.

(** X5: the blog filter does not look at the letter case: a URL put in
    upper case or in lower case is rejected exactly when the URL itself
    is. *)
Theorem X5_blogTest_ignores_case (u : string) :
  blogTest (toUpperCase u) = blogTest u
  /\ blogTest (toLowerCase u) = blogTest u.
Proof.
  unfold blogTest, toUpperCase, toLowerCase. split.
  - apply testAltsCI_mapChars, upperChar_upperChar.
  - apply testAltsCI_mapChars, upperChar_lowerChar.
Qed.

(** ** The two lists *)

Section MoreClassifierFacts.

Lemma transformedTexts_app (l1 l2 : list string) :
  transformedTexts (l1 ++ l2)%list
  = (transformedTexts l1 ++ transformedTexts l2)%list.
Proof. unfold transformedTexts. now rewrite filter_app, map_app, filter_app. Qed.

Lemma transformedTexts_In_inv (locs : list string) (p : string) :
  In p (transformedTexts locs) ->
  exists u, In u locs /\ blogTest u = false /\ p = transformUrl u /\ p <> "".
Proof.
  unfold transformedTexts. intros H.
  apply filter_In in H as [H Hlen].
  apply in_map_iff in H as (u & Hu & H).
  apply filter_In in H as [Hin Hb].
  exists u. repeat split; auto.
  - now apply negb_true_iff in Hb.
  - intros ->. discriminate.
Qed.

Lemma transformedTexts_length (locs : list string) :
  length (transformedTexts locs) <= length locs.
Proof.
  unfold transformedTexts.
  induction locs as [|u locs IH]; simpl; [lia |].
  destruct (negb (blogTest u)); simpl; [| lia].
  destruct (0 <? String.length (transformUrl u))%nat; simpl; lia.
Qed.

Lemma two_filters_length (l : list string) :
  length (filter keywordTest l) + length (filter phraseTest l) <= length l.
Proof.
  induction l as [|x l IH]; simpl; [lia |].
  unfold keywordTest, phraseTest in *.
  destruct (endsWith x "NJ"), (isValidKeyword x); simpl; lia.
Qed.

Lemma acc_eq (a b : Acc) :
  keywords a = keywords b -> phrases a = phrases b -> a = b.
Proof. destruct a, b; simpl; now intros -> ->. Qed.

Lemma classifyLocs_app (l1 l2 : list string) :
  keywords (classifyLocs (l1 ++ l2)%list)
  = (keywords (classifyLocs l1) ++ keywords (classifyLocs l2))%list
  /\ phrases (classifyLocs (l1 ++ l2)%list)
     = (phrases (classifyLocs l1) ++ phrases (classifyLocs l2))%list.
Proof.
  destruct (classifyLocs_filter (l1 ++ l2)%list) as [-> ->].
  destruct (classifyLocs_filter l1) as [-> ->].
  destruct (classifyLocs_filter l2) as [-> ->].
  now rewrite transformedTexts_app, !filter_app.
Qed.

Lemma classifyLocs_useless (u : string) :
  blogTest u = true \/ isValidKeyword (transformUrl u) = false ->
  classifyLocs [u] = mkAcc [] [].
Proof.
  intros H. apply acc_eq; simpl;
    destruct (classifyLocs_filter [u]) as [Hk Hp]; rewrite ?Hk, ?Hp;
    unfold transformedTexts; simpl;
    destruct H as [-> | H]; simpl; try reflexivity;
    destruct (negb (blogTest u)); simpl; try reflexivity;
    destruct (0 <? String.length (transformUrl u))%nat; simpl; try reflexivity;
    unfold keywordTest, phraseTest; rewrite H, ?andb_false_r; reflexivity.
Qed.

Lemma split_pieces_without (sep d : ascii) (s : string) :
  hasChar d s = false ->
  Forall (fun w => hasChar d w = false) (split sep s).
Proof.
  induction s as [|c r IH]; simpl; intros H.
  - constructor; [reflexivity | constructor].
  - apply orb_false_iff in H as [Hc Hr]. specialize (IH Hr).
    destruct (Ascii.eqb c sep).
    + constructor; [reflexivity | assumption].
    + destruct (split sep r) as [|w ws].
      * constructor; [simpl; now rewrite Hc | constructor].
      * inversion IH; subst.
        constructor; [simpl; rewrite Hc; assumption | assumption].
Qed.

Lemma hasChar_join (d : ascii) (ws : list string) :
  Ascii.eqb " " d = false ->
  Forall (fun w => hasChar d w = false) ws ->
  hasChar d (join " " ws) = false.
Proof.
  intros Hd. induction 1 as [|w ws Hw _ IH]; [reflexivity |].
  destruct ws as [|w' ws']; [exact Hw |].
  change (join " " (w :: w' :: ws'))
    with (w ++ String " " (join " " (w' :: ws')))%string.
  rewrite hasChar_append, Hw. cbn [hasChar orb]. now rewrite Hd, IH.
Qed.

Lemma upperChar_hyphen (c : ascii) :
  Ascii.eqb (upperChar c) "-" = Ascii.eqb c "-".
Proof. destruct c as [[] [] [] [] [] [] [] []]; reflexivity. Qed.

Lemma lowerChar_hyphen (c : ascii) :
  Ascii.eqb (lowerChar c) "-" = Ascii.eqb c "-".
Proof. destruct c as [[] [] [] [] [] [] [] []]; reflexivity. Qed.

Lemma transformWord_hyphen (ws : list string) (w : string) (i : nat) :
  hasChar "-" w = false -> hasChar "-" (transformWord ws w i) = false.
Proof.
  unfold transformWord. intros H.
  destruct ((Z.of_nat i =? Z.of_nat (length ws) - 1)%Z
            && String.eqb (toLowerCase w) "nj").
  - unfold toUpperCase. now rewrite (hasChar_mapChars _ _ _ upperChar_hyphen).
  - rewrite hasChar_append. unfold toUpperCase, toLowerCase.
    rewrite (hasChar_mapChars _ _ _ upperChar_hyphen),
            (hasChar_mapChars _ _ _ lowerChar_hyphen).
    now rewrite <- hasChar_append, charAt0_slice1.
Qed.

Lemma pathWords_hyphen (u : string) :
  Forall (fun w => hasChar "-" w = false) (pathWords u).
Proof.
  unfold pathWords. apply Forall_forall. intros w Hin.
  apply filter_In in Hin as [Hin _].
  assert (Hno : hasChar "-" (replaceChar "-" " " (withoutSlashes u)) = false).
  { unfold replaceChar. apply hasChar_mapChars_never. intros c.
    destruct (Ascii.eqb c "-") eqn:E; [reflexivity | exact E]. }
  pose proof (split_pieces_without " " "-" _ Hno) as Hall.
  rewrite Forall_forall in Hall. now apply Hall.
Qed.

End MoreClassifierFacts.

(** X6: every keyword and every phrase comes from the sitemap: it is
    the transformation of an entry that the blog filter let through, it
    is not empty and it is a valid keyword. *)
Theorem X6_lists_come_from_entries (locs : list string) (p : string) :
  In p (keywords (classifyLocs locs)) \/ In p (phrases (classifyLocs locs)) ->
  exists u,
    In u locs /\ blogTest u = false /\ p = transformUrl u
    /\ p <> "" /\ isValidKeyword p = true.
Proof.
  destruct (classifyLocs_filter locs) as [-> ->].
  intros [H | H]; apply filter_In in H as [Hin Ht];
    apply transformedTexts_In_inv in Hin as (u & Hu & Hb & Hp & Hne);
    exists u; repeat split; auto.
  - unfold keywordTest in Ht. now apply andb_true_iff in Ht as [_ Ht].
  - unfold phraseTest in Ht. now apply andb_true_iff in Ht as [_ Ht].
Qed.

Lemma X6_lists_come_from_entries_witness :
  exists u,
    In u ["https://x.com/about"; "https://x.com/our-services"]
    /\ blogTest u = false /\ "Our Services" = transformUrl u
    /\ "Our Services" <> "" /\ isValidKeyword "Our Services" = true.
Proof.
  apply (X6_lists_come_from_entries
           ["https://x.com/about"; "https://x.com/our-services"]).
  right. simpl. left. reflexivity.
Defined.

(** X7: the two lists together are never longer than the sitemap: an
    entry gives at most one keyword or phrase. *)
Theorem X7_lists_no_longer_than_sitemap (locs : list string) :
  length (keywords (classifyLocs locs)) + length (phrases (classifyLocs locs))
  <= length locs.
Proof.
  destruct (classifyLocs_filter locs) as [-> ->].
  pose proof (two_filters_length (transformedTexts locs)).
  pose proof (transformedTexts_length locs). lia.
Qed.

(** X8: classifying a sitemap cut in two gives, list by list, what the
    first part gives followed by what the second part gives: both lists
    follow the order of the sitemap. *)
Theorem X8_lists_follow_sitemap_order (l1 l2 : list string) :
  keywords (classifyLocs (l1 ++ l2)%list)
  = (keywords (classifyLocs l1) ++ keywords (classifyLocs l2))%list
  /\ phrases (classifyLocs (l1 ++ l2)%list)
     = (phrases (classifyLocs l1) ++ phrases (classifyLocs l2))%list.
Proof. apply classifyLocs_app. Qed.

(** X9: an entry that the blog filter rejects, or whose phrase is not a
    valid keyword, changes nothing: the lists are those of the sitemap
    without it. *)
Theorem X9_rejected_entry_changes_nothing (l1 l2 : list string) (u : string) :
  blogTest u = true \/ isValidKeyword (transformUrl u) = false ->
  classifyLocs (l1 ++ u :: l2)%list = classifyLocs (l1 ++ l2)%list.
Proof.
  intros H. apply classifyLocs_useless in H.
  change (u :: l2) with ([u] ++ l2)%list.
  apply acc_eq.
  - destruct (classifyLocs_app l1 ([u] ++ l2)%list) as [-> _].
    destruct (classifyLocs_app [u] l2) as [-> _].
    destruct (classifyLocs_app l1 l2) as [-> _].
    now rewrite H.
  - destruct (classifyLocs_app l1 ([u] ++ l2)%list) as [_ ->].
    destruct (classifyLocs_app [u] l2) as [_ ->].
    destruct (classifyLocs_app l1 l2) as [_ ->].
    now rewrite H.
Qed.

Lemma X9_rejected_entry_witness :
  classifyLocs (["https://x.com/drain-cleaning"]
                  ++ "https://x.com/blog/drain-tips" :: ["https://x.com/about"])%list
  = classifyLocs (["https://x.com/drain-cleaning"] ++ ["https://x.com/about"])%list.
Proof. apply X9_rejected_entry_changes_nothing. left. reflexivity. Defined.

(** X10: the text made from a URL of ASCII code units never contains a
    hyphen; and unless it is empty, cutting it at its spaces gives words
    that are not blank and contain no space: no space in front, none at
    the end, no two in a row. *)
Theorem X10_transformed_text_shape (u : string) :
  isAscii u = true ->
  hasChar "-" (transformUrl u) = false
  /\ (transformUrl u = ""
      \/ Forall (fun w => wordOk w = true) (split " " (transformUrl u))).
Proof.
  intros _. split.
  - unfold transformUrl. apply hasChar_join; [reflexivity |].
    unfold mapIndex.
    apply mapIndexFrom_Forall with (P := fun w => hasChar "-" w = false).
    + intros x i. apply transformWord_hyphen.
    + apply pathWords_hyphen.
  - pose proof (transformedWords_ok u) as Hok.
    unfold transformUrl.
    destruct (mapIndex (transformWord (pathWords u)) (pathWords u))
      as [|w ws] eqn:E; [now left |].
    right.
    assert (Hne : w :: ws <> []) by discriminate.
    destruct (isValidKeyword_join (w :: ws) Hne Hok) as [-> _].
    exact Hok.
Qed.

Lemma X10_transformed_text_witness :
  hasChar "-" (transformUrl "https://x.com/24-7--drain-cleaning-/") = false
  /\ (transformUrl "https://x.com/24-7--drain-cleaning-/" = ""
      \/ Forall (fun w => wordOk w = true)
                (split " " (transformUrl "https://x.com/24-7--drain-cleaning-/"))).
Proof. apply X10_transformed_text_shape. reflexivity. Defined.

(** ** What makes a keyword *)

Section KeywordFacts.

Lemma endsWith_cons (c : ascii) (s p : string) :
  String.length p <= String.length s ->
  endsWith (String c s) p = endsWith s p.
Proof.
  intros H. unfold endsWith. cbn [String.length].
  replace (S (String.length s) - String.length p)
    with (S (String.length s - String.length p)) by lia.
  cbn [drop].
  replace (String.length p <=? S (String.length s))%nat with true
    by (symmetry; apply Nat.leb_le; lia).
  replace (String.length p <=? String.length s)%nat with true
    by (symmetry; apply Nat.leb_le; lia).
  reflexivity.
Qed.

Lemma endsWith_app_r (a b p : string) :
  String.length p <= String.length b ->
  endsWith (a ++ b)%string p = endsWith b p.
Proof.
  intros H. induction a as [|c a IH]; [reflexivity |].
  rewrite append_cons, endsWith_cons; [exact IH |].
  rewrite length_append. lia.
Qed.

(** After a space, only what follows decides. *)
Lemma endsWith_NJ_after_space (a rest : string) :
  rest <> "" ->
  endsWith (a ++ String " " rest)%string "NJ" = endsWith rest "NJ".
Proof.
  intros Hne. destruct rest as [|x rest]; [congruence |].
  rewrite endsWith_app_r by (simpl; lia).
  destruct rest as [|y rest]; [reflexivity |].
  apply endsWith_cons. simpl. lia.
Qed.

Lemma join_not_empty (ws : list string) :
  ws <> [] -> Forall (fun w => w <> "") ws -> join " " ws <> "".
Proof.
  intros Hne Hall. destruct ws as [|w ws]; [congruence |].
  inversion Hall as [|? ? Hw _]; subst.
  destruct ws as [|w' ws']; [exact Hw |].
  change (join " " (w :: w' :: ws'))
    with (w ++ String " " (join " " (w' :: ws')))%string.
  destruct w; [congruence | discriminate].
Qed.

Lemma endsWith_NJ_join (ws : list string) :
  Forall (fun w => w <> "") ws ->
  endsWith (join " " ws) "NJ" = endsWith (last ws "") "NJ".
Proof.
  induction 1 as [|w ws Hw Hall IH]; [reflexivity |].
  destruct ws as [|w' ws']; [reflexivity |].
  change (join " " (w :: w' :: ws'))
    with (w ++ String " " (join " " (w' :: ws')))%string.
  rewrite endsWith_NJ_after_space; [exact IH |].
  apply join_not_empty; [discriminate | assumption].
Qed.

Lemma last_caseTokens (ws : list string) :
  last (caseTokens ws) ""
  = match ws with
    | [] => ""
    | _ => if String.eqb (toLowerCase (last ws "")) "nj"
           then toUpperCase (last ws "")
           else titleCase (last ws "")
    end.
Proof.
  induction ws as [|w ws IH]; [reflexivity |].
  destruct ws as [|w' ws']; [reflexivity |].
  change (caseTokens (w :: w' :: ws'))
    with (titleCase w :: caseTokens (w' :: ws')).
  change (last (w :: w' :: ws') "") with (last (w' :: ws') "").
  rewrite <- IH.
  destruct (caseTokens (w' :: ws')) eqn:E; [| reflexivity].
  destruct ws'; discriminate E.
Qed.

Lemma lowerChar_n (c : ascii) :
  lowerChar c = "n"%char -> upperChar c = "N"%char.
Proof.
  destruct c as [[] [] [] [] [] [] [] []]; intros H; try reflexivity;
    discriminate H.
Qed.

Lemma lowerChar_j (c : ascii) :
  lowerChar c = "j"%char -> upperChar c = "J"%char.
Proof.
  destruct c as [[] [] [] [] [] [] [] []]; intros H; try reflexivity;
    discriminate H.
Qed.

Lemma lowerChar_never_J (c : ascii) : Ascii.eqb (lowerChar c) "J" = false.
Proof. destruct c as [[] [] [] [] [] [] [] []]; reflexivity. Qed.

Lemma toUpperCase_of_nj (w : string) :
  toLowerCase w = "nj" -> toUpperCase w = "NJ".
Proof.
  unfold toLowerCase, toUpperCase.
  destruct w as [|a [|b [|c r]]]; try discriminate.
  cbn [mapChars]. intros H. injection H as Ha Hb.
  now rewrite (lowerChar_n _ Ha), (lowerChar_j _ Hb).
Qed.

Lemma endsWith_NJ_tail (c : ascii) (r : string) :
  endsWith (String c r) "NJ" = true -> hasChar "J" r = true.
Proof.
  intros H. apply endsWith_inv in H as [a Ha].
  destruct a as [|x a].
  - rewrite append_nil_l in Ha. injection Ha as _ ->. reflexivity.
  - rewrite append_cons in Ha. injection Ha as _ ->.
    rewrite hasChar_append. simpl. apply orb_true_r.
Qed.

Lemma titleCase_never_NJ (w : string) : endsWith (titleCase w) "NJ" = false.
Proof.
  destruct w as [|c r]; [reflexivity |].
  destruct (endsWith (titleCase (String c r)) "NJ") eqn:E; [| reflexivity].
  apply endsWith_NJ_tail in E. unfold toLowerCase in E.
  rewrite (hasChar_mapChars_never _ _ _ lowerChar_never_J) in E. discriminate.
Qed.

Lemma wordOk_not_empty (w : string) : wordOk w = true -> w <> "".
Proof. intros H ->. discriminate. Qed.

End KeywordFacts.

(** X11: the text made from a URL of ASCII code units ends with [NJ]
    exactly when the last word of its path is [nj] in some letter case;
    a word that merely ends with these letters, like [benj], does not
    make a keyword. *)
Theorem X11_keyword_iff_last_word_is_nj (u : string) :
  isAscii u = true ->
  endsWith (transformUrl u) "NJ"
  = String.eqb (toLowerCase (last (pathWords u) "")) "nj".
Proof.
  intros _.
  pose proof (transformedWords_ok u) as Hok.
  unfold transformUrl. unfold mapIndex in *.
  rewrite mapIndexFrom_caseTokens in * by reflexivity.
  rewrite endsWith_NJ_join
    by (eapply Forall_impl; [| exact Hok]; intros w; apply wordOk_not_empty).
  rewrite last_caseTokens.
  destruct (pathWords u) as [|w ws]; [reflexivity |].
  destruct (String.eqb (toLowerCase (last (w :: ws) "")) "nj") eqn:E.
  - apply String.eqb_eq in E. now rewrite (toUpperCase_of_nj _ E).
  - apply titleCase_never_NJ.
Qed.

Lemma X11_keyword_witness :
  endsWith (transformUrl "https://x.com/call-benj") "NJ"
  = String.eqb (toLowerCase (last (pathWords "https://x.com/call-benj") "")) "nj".
Proof. apply X11_keyword_iff_last_word_is_nj. reflexivity. Defined.

Example last_word_ending_in_nj :
  classifyLocs ["https://x.com/call-benj"; "https://x.com/call-nj"]
  = mkAcc ["Call NJ"] ["Call Benj"].
Proof. reflexivity. Qed.

(** X12: the address of a site without a path, with or without the
    final slash, gives the empty text, so it contributes neither a
    keyword nor a phrase. *)
Theorem X12_site_root_gives_nothing (scheme host : string) :
  scheme = "http" \/ scheme = "https" ->
  host <> "" ->
  hasChar "/" host = false ->
  transformUrl (scheme ++ "://" ++ host ++ "")%string = ""
  /\ transformUrl (scheme ++ "://" ++ host ++ "/")%string = ""
  /\ transformedTexts [(scheme ++ "://" ++ host ++ "")%string;
                       (scheme ++ "://" ++ host ++ "/")%string] = [].
Proof.
  intros Hs Hne Hh.
  assert (H1 : transformUrl (scheme ++ "://" ++ host ++ "")%string = "").
  { rewrite transformUrl_spec, withoutDomain_http; auto. }
  assert (H2 : transformUrl (scheme ++ "://" ++ host ++ "/")%string = "").
  { rewrite transformUrl_spec, withoutDomain_http; auto. }
  split; [exact H1 |]. split; [exact H2 |].
  unfold transformedTexts. simpl.
  destruct (negb (blogTest (scheme ++ "://" ++ host ++ "")));
    destruct (negb (blogTest (scheme ++ "://" ++ host ++ "/")));
    simpl; rewrite ?H1, ?H2; reflexivity.
Qed.

Lemma X12_site_root_witness :
  transformUrl ("https" ++ "://" ++ "x.com" ++ "")%string = ""
  /\ transformUrl ("https" ++ "://" ++ "x.com" ++ "/")%string = ""
  /\ transformedTexts [("https" ++ "://" ++ "x.com" ++ "")%string;
                       ("https" ++ "://" ++ "x.com" ++ "/")%string] = [].
Proof.
  apply X12_site_root_gives_nothing.
  - right. reflexivity.
  - discriminate.
  - reflexivity.
Defined.

(** ** [generateArticle] *)

Section ArticleFacts.
Variable env : Env.

Lemma generateArticle_ok_answer (keyword : string) (w w' : World)
      (x : option string) :
  generateArticle env keyword w = (Ok x, w') ->
  exists text t,
    x = Some text /\ completionAnswer env t keyword = Ok text
    /\ (t = 1 + tick w \/ t = 5 + tick w \/ t = 9 + tick w).
Proof.
  rewrite generateArticle_three, retry_three, !generateArticleBody_run.
  cbn [tick emit afterFailure reported plus].
  destruct (completionAnswer env (S (tick w)) keyword) as [a|e1] eqn:E1.
  { intros [= <- _]. exists a, (1 + tick w). auto. }
  rewrite generateArticleBody_run. cbn [tick emit afterFailure reported].
  destruct (completionAnswer env (S (S (S (S (S (tick w)))))) keyword)
    as [a|e2] eqn:E2.
  { intros [= <- _]. exists a, (5 + tick w). auto. }
  rewrite generateArticleBody_run. cbn [tick emit afterFailure reported].
  destruct (completionAnswer env
              (S (S (S (S (S (S (S (S (S (tick w)))))))))) keyword)
    as [a|e3] eqn:E3; [| discriminate].
  intros [= <- _]. exists a, (9 + tick w). auto.
Qed.

Lemma generateArticle_cost (keyword : string) (w : World) :
  exists suffix,
    trace (snd (generateArticle env keyword w)) = (trace w ++ suffix)%list
    /\ 1 <= countCompletions suffix <= 3
    /\ RATE_LIMIT_DELAY env <= totalSleep suffix <= 6 * RATE_LIMIT_DELAY env.
Proof.
  rewrite generateArticle_three, retry_three, !generateArticleBody_run.
  cbn [tick emit afterFailure reported plus].
  destruct (completionAnswer env (S (tick w)) keyword) as [a|e1].
  { eexists. split.
    - unfold afterFailure, reported, emit. cbn [snd trace].
      repeat rewrite <- app_assoc. reflexivity.
    - cbn. lia. }
  rewrite generateArticleBody_run. cbn [tick emit afterFailure reported].
  destruct (completionAnswer env (S (S (S (S (S (tick w)))))) keyword)
    as [a|e2].
  { eexists. split.
    - unfold afterFailure, reported, emit. cbn [snd trace].
      repeat rewrite <- app_assoc. reflexivity.
    - cbn. lia. }
  rewrite generateArticleBody_run. cbn [tick emit afterFailure reported].
  destruct (completionAnswer env
              (S (S (S (S (S (S (S (S (S (tick w)))))))))) keyword)
    as [a|e3].
  { eexists. split.
    - unfold afterFailure, reported, emit. cbn [snd trace].
      repeat rewrite <- app_assoc. reflexivity.
    - cbn. lia. }
  eexists. split.
  - unfold afterFailure, reported, emit. cbn [snd trace].
    repeat rewrite <- app_assoc. reflexivity.
  - cbn. lia.
Qed.

End ArticleFacts.

(** X14: when [generateArticle] returns, it returns a text, never
    [undefined], and the text is what the completion provider answered
    to the request for this keyword at the first, second or third
    attempt. *)
Theorem X14_generateArticle_returns_provider_text
        (env : Env) (keyword : string) (w w' : World) (x : option string) :
  generateArticle env keyword w = (Ok x, w') ->
  exists text t,
    x = Some text /\ completionAnswer env t keyword = Ok text
    /\ (t = 1 + tick w \/ t = 5 + tick w \/ t = 9 + tick w).
Proof. apply generateArticle_ok_answer. Qed.

Lemma X14_generateArticle_witness :
  exists text t,
    Some "An article." = Some text
    /\ completionAnswer
         (scriptedEnv demoDocument (fun _ => false) (fun t => Nat.ltb t 3))
         t "Plumbing Repair NJ" = Ok text
    /\ (t = 1 + tick startWorld \/ t = 5 + tick startWorld
        \/ t = 9 + tick startWorld).
Proof.
  eapply (X14_generateArticle_returns_provider_text
            (scriptedEnv demoDocument (fun _ => false) (fun t => Nat.ltb t 3))
            "Plumbing Repair NJ" startWorld).
  lazy. reflexivity.
Defined.

(** X15: whatever the provider does, one call of [generateArticle]
    sends at least one and at most three completion requests and sleeps
    at least [RATE_LIMIT_DELAY] and at most six times [RATE_LIMIT_DELAY]
    in all; what it does is added to the trace, nothing is taken
    away. *)
Theorem X15_generateArticle_cost_is_bounded
        (env : Env) (keyword : string) (w : World) :
  exists suffix,
    trace (snd (generateArticle env keyword w)) = (trace w ++ suffix)%list
    /\ 1 <= countCompletions suffix <= 3
    /\ RATE_LIMIT_DELAY env <= totalSleep suffix <= 6 * RATE_LIMIT_DELAY env.
Proof. apply generateArticle_cost. Qed.

(** ** [processSitemap] and the worker *)

Section MoreProcessorFacts.
Variable env : Env.

Lemma traceExtends_refl (w : World) : traceExtends w w.
Proof. exists []. now rewrite app_nil_r. Qed.

Lemma traceExtends_trans (w1 w2 w3 : World) :
  traceExtends w1 w2 -> traceExtends w2 w3 -> traceExtends w1 w3.
Proof.
  intros [s1 H1] [s2 H2]. exists (s1 ++ s2)%list.
  now rewrite H2, H1, app_assoc.
Qed.

Lemma traceExtends_emit (ev : Event) (w : World) : traceExtends w (emit ev w).
Proof. now exists [ev]. Qed.

Lemma traceExtends_In (ev : Event) (w w' : World) :
  traceExtends w w' -> In ev (trace w) -> In ev (trace w').
Proof. intros [s ->] H. apply in_or_app. now left. Qed.

Lemma retryLoop_extends {A : Type} (m : nat) (subject : string) (body : M A) :
  (forall w o w', body w = (o, w') -> traceExtends w w') ->
  forall remaining attempts w o w',
    retryLoop env m subject body remaining attempts w = (o, w') ->
    traceExtends w w'.
Proof.
  intros Hbody. induction remaining as [|remaining IH]; intros attempts w o w' H.
  - injection H as _ <-. apply traceExtends_refl.
  - rewrite retryLoop_step in H.
    destruct (body w) as [[a|e] w1] eqn:E; apply Hbody in E.
    + injection H as _ <-. exact E.
    + destruct (S attempts =? m)%nat.
      * injection H as _ <-.
        eapply traceExtends_trans; [exact E | apply traceExtends_emit].
      * apply IH in H.
        eapply traceExtends_trans; [exact E |].
        eapply traceExtends_trans; [| exact H].
        unfold afterFailure.
        eapply traceExtends_trans; apply traceExtends_emit.
Qed.

Lemma generateArticle_extends (keyword : string) (w w' : World)
      (o : Outcome (option string)) :
  generateArticle env keyword w = (o, w') -> traceExtends w w'.
Proof.
  apply retryLoop_extends. intros w0 o0 w0' H.
  rewrite generateArticleBody_run in H. injection H as _ <-.
  eapply traceExtends_trans; apply traceExtends_emit.
Qed.

(** A successful article step ends with the article being written. *)
Lemma articleStep_ok_write (outDir timestamp : string) (kws : list string)
      (w w' : World) (kw : string) :
  kws <> [] ->
  articleStep env outDir timestamp kws w = (Ok kw, w') ->
  exists text w1,
    generateArticle env kw (mkWorld (S (tick w)) (trace w)) = (Ok (Some text), w1)
    /\ w' = emit (EvWriteFile
                    (pathJoin env outDir
                       (safeFileName kw ++ "_" ++ timestamp ++ ".txt")) text) w1.
Proof.
  intros Hne. rewrite articleStep_cons by assumption. cbv zeta.
  destruct (generateArticle env _ _) as [[[text|]|e] w1] eqn:G; try discriminate.
  unfold fsWriteFile. destruct (writeAnswer env _ _ _); [discriminate |].
  intros [= <- <-]. now exists text, w1.
Qed.

Lemma articleStep_extends (outDir timestamp : string) (kws : list string)
      (w w' : World) (kw : string) :
  articleStep env outDir timestamp kws w = (Ok kw, w') -> traceExtends w w'.
Proof.
  destruct kws as [|k kws].
  - rewrite articleStep_nil. intros [= _ <-]. apply traceExtends_refl.
  - intros H. apply articleStep_ok_write in H as (text & w1 & G & ->);
      [| discriminate].
    apply generateArticle_extends in G. destruct G as [s Hs]. cbn [trace] in Hs.
    exists (s ++ [EvWriteFile
                    (pathJoin env outDir
                       (safeFileName kw ++ "_" ++ timestamp ++ ".txt")) text])%list.
    rewrite trace_emit, Hs. now rewrite app_assoc.
Qed.

(** The directory of an attempt is made of the host and of a timestamp
    without colon. *)
Lemma collectStep_ok_dir (sitemapUrl : string) (w w1 : World) (c : Collected) :
  collectStep env sitemapUrl w = (Ok c, w1) ->
  cOutputDir c = pathJoin env "output" (cDomain c ++ "_" ++ cTimestamp c)
  /\ hasChar ":" (cTimestamp c) = false
  /\ hasChar "." (cTimestamp c) = false.
Proof.
  unfold collectStep.
  destruct (urlHostname env sitemapUrl) as [dom|]; [| discriminate].
  intros H.
  apply bind_ok_inv in H as (ts & wa & Hts & H).
  apply bind_ok_inv in H as (u1 & wb & _ & H).
  apply bind_ok_inv in H as (data & wc & _ & H).
  apply bind_ok_inv in H as (result & wd & _ & H).
  apply bind_ok_inv in H as (locs & we & _ & H).
  apply bind_ok_inv in H as (u2 & wf & _ & H).
  injection H as <- _. cbn [cOutputDir cDomain cTimestamp].
  split; [reflexivity |].
  unfold getTimestamp in Hts. injection Hts as <- _.
  split; apply hasChar_mapChars_never; intros ch.
  - destruct (Ascii.eqb ch ":") eqn:E1; [reflexivity |].
    destruct (Ascii.eqb ch "."); [reflexivity | exact E1].
  - destruct (Ascii.eqb ch ".") eqn:E1;
      [now rewrite orb_true_r
      | now rewrite orb_false_r; destruct (Ascii.eqb ch ":")].
Qed.


Lemma processSitemapBody_invalid (sitemapUrl : string) (w : World) :
  urlHostname env sitemapUrl = None ->
  processSitemapBody env sitemapUrl w = (Thrown (mkError "Invalid URL"), w).
Proof.
  intros H. unfold processSitemapBody. apply bind_thrown.
  unfold collectStep. now rewrite H.
Qed.

End MoreProcessorFacts.

(** X16: for an address that [new URL] refuses, [processSitemap] makes
    its three attempts without creating a directory, fetching or writing
    anything: it reports, sleeps once and twice the delay, reports a
    third time and throws the error of the parser. *)
Theorem X16_invalid_url_touches_nothing
        (env : Env) (sitemapUrl : string) (w : World) :
  urlHostname env sitemapUrl = None ->
  exists w',
    processSitemap env sitemapUrl w = (Thrown (mkError "Invalid URL"), w')
    /\ trace w'
       = (trace w
            ++ [EvConsoleError
                  (failureMessage sitemapUrl 1 (mkError "Invalid URL"));
                EvSleep (RATE_LIMIT_DELAY env * 1);
                EvConsoleError
                  (failureMessage sitemapUrl 2 (mkError "Invalid URL"));
                EvSleep (RATE_LIMIT_DELAY env * 2);
                EvConsoleError
                  (failureMessage sitemapUrl 3 (mkError "Invalid URL"))])%list.
Proof.
  intros H.
  change (processSitemap env sitemapUrl w)
    with (retryLoop env 3 sitemapUrl (processSitemapBody env sitemapUrl) 3 0 w).
  rewrite retry_three, !(processSitemapBody_invalid env _ _ H).
  eexists. split; [reflexivity |].
  unfold afterFailure, reported, emit. cbn [trace].
  repeat rewrite <- app_assoc. reflexivity.
Qed.

Lemma X16_invalid_url_witness :
  exists w',
    processSitemap
      (mkEnv 1000 2 (fun _ => None) (pathJoin calmEnv) (clockIso calmEnv)
             (mkdirAnswer calmEnv) (getAnswer calmEnv) (parseAnswer calmEnv)
             (writeAnswer calmEnv) (randomAnswer calmEnv)
             (completionAnswer calmEnv))
      "not a url" startWorld
    = (Thrown (mkError "Invalid URL"), w')
    /\ trace w'
       = [EvConsoleError "Attempt 1 failed for not a url: Invalid URL";
          EvSleep 1000;
          EvConsoleError "Attempt 2 failed for not a url: Invalid URL";
          EvSleep 2000;
          EvConsoleError "Attempt 3 failed for not a url: Invalid URL"].
Proof.
  apply (X16_invalid_url_touches_nothing
           (mkEnv 1000 2 (fun _ => None) (pathJoin calmEnv) (clockIso calmEnv)
                  (mkdirAnswer calmEnv) (getAnswer calmEnv) (parseAnswer calmEnv)
                  (writeAnswer calmEnv) (randomAnswer calmEnv)
                  (completionAnswer calmEnv))
           "not a url" startWorld).
  reflexivity.
Defined.

(** X17: [processSitemap] never returns [undefined]: its loop is left by
    a [return] or by a [throw], so the worker posts either a result
    object or an error text, and the error text is that of a failed
    attempt. *)
Theorem X17_worker_never_posts_undefined
        (env : Env) (sitemapUrl : string) (w : World) :
  (forall w', processSitemap env sitemapUrl w <> (Ok None, w'))
  /\ fst (workerMain env sitemapUrl w) <> MsgResult None
  /\ (forall r w', workerMain env sitemapUrl w = (MsgResult (Some r), w') ->
                   exists w0, processSitemapBody env sitemapUrl w0 = (Ok r, w')).
Proof.
  assert (H : forall w', processSitemap env sitemapUrl w <> (Ok None, w')).
  { intros w'. apply retryLoop_not_undefined; unfold maxRetries; lia. }
  split; [exact H |]. split.
  - unfold workerMain.
    destruct (processSitemap env sitemapUrl w) as [[[r|]|e] w'] eqn:E;
      try discriminate.
    exfalso. now apply (H w').
  - intros r w'. unfold workerMain.
    destruct (processSitemap env sitemapUrl w) as [[x|e] w1] eqn:E;
      [| discriminate].
    intros [= -> <-]. now apply processSitemap_ok_inv in E.
Qed.

Lemma X17_worker_witness :
  exists w0,
    processSitemapBody calmEnv "https://x.com/sitemap.xml" w0
    = (Ok (mkDomainResult "x.com" "output/x.com_2024-01-02T03-04-05-678Z"
                          1 1 "Plumbing Repair NJ"),
       snd (processSitemap calmEnv "https://x.com/sitemap.xml" startWorld)).
Proof.
  apply (proj2 (proj2 (X17_worker_never_posts_undefined
                         calmEnv "https://x.com/sitemap.xml" startWorld))).
  reflexivity.
Defined.

(** X18: the result of a [Success] names the host of the sitemap as its
    domain and [output/<domain>_<timestamp>] as its directory, with a
    timestamp free of colons and periods; that directory has been
    created, and the two files written into it hold, one per line, the
    keywords and the phrases classified from the entries of the fetched
    document, as many as the two counts say. *)
Theorem X18_success_has_persisted_lists
        (env : Env) (sitemapUrl : string) (w w' : World) (r : DomainResult) :
  processSitemap env sitemapUrl w = (Ok (Some r), w') ->
  urlHostname env sitemapUrl = Some (domain r)
  /\ exists ts t data result locs,
      getAnswer env t sitemapUrl = Ok data
      /\ parseAnswer env data = Ok result
      /\ resultLocs result = Ok locs
      /\ hasChar ":" ts = false /\ hasChar "." ts = false
      /\ outputDir r = pathJoin env "output" (domain r ++ "_" ++ ts)
      /\ length (keywords (classifyLocs locs)) = keywordCount r
      /\ length (phrases (classifyLocs locs)) = phraseCount r
      /\ In (EvMkdir (outputDir r)) (trace w')
      /\ In (EvWriteFile (pathJoin env (outputDir r) ("keywords_" ++ ts ++ ".txt"))
                         (join (String "010" "") (keywords (classifyLocs locs))))
            (trace w')
      /\ In (EvWriteFile (pathJoin env (outputDir r) ("phrases_" ++ ts ++ ".txt"))
                         (join (String "010" "") (phrases (classifyLocs locs))))
            (trace w').
Proof.
  intros H. apply processSitemap_ok_inv in H as [w0 H].
  apply processSitemapBody_ok_inv in H
    as (c & w1 & Hc & Ha & Hd & Ho & Hk & Hp).
  destruct (collectStep_ok_dir env _ _ _ _ Hc) as (Hdir & Hcolon & Hdot).
  apply collectStep_ok_inv in Hc
    as (t & data & result & locs & Hhost & Hget & Hparse & Hlocs & Hacc & Htr).
  apply articleStep_extends in Ha.
  rewrite Hd, Ho. split; [exact Hhost |].
  exists (cTimestamp c), t, data, result, locs.
  rewrite <- Hacc.
  repeat (split; [solve [auto] |]).
  assert (Hin : forall ev,
             In ev [EvMkdir (cOutputDir c); EvGet sitemapUrl;
                    EvWriteFile
                      (pathJoin env (cOutputDir c)
                         ("keywords_" ++ cTimestamp c ++ ".txt"))
                      (join (String "010" "") (keywords (cAcc c)));
                    EvWriteFile
                      (pathJoin env (cOutputDir c)
                         ("phrases_" ++ cTimestamp c ++ ".txt"))
                      (join (String "010" "") (phrases (cAcc c)))] ->
             In ev (trace w')).
  { intros ev Hev. apply (traceExtends_In ev w1 w' Ha).
    rewrite Htr. apply in_or_app. now right. }
  repeat split; apply Hin; simpl; auto.
Qed.

Lemma X18_success_witness :
  urlHostname calmEnv "https://x.com/sitemap.xml"
  = Some (domain (mkDomainResult "x.com" "output/x.com_2024-01-02T03-04-05-678Z"
                                 1 1 "Plumbing Repair NJ")).
Proof.
  eapply proj1.
  eapply (X18_success_has_persisted_lists
            calmEnv "https://x.com/sitemap.xml" startWorld).
  lazy. reflexivity.
Defined.



(** ** [main]: the list of sitemaps, the dispatch loop, the summaries *)

Section MoreSchedulerFacts.
Variable env : Env.

Lemma sitemapUrls_lines (a b : string) :
  sitemapUrls env (a ++ String "010" b)%string
  = (sitemapUrls env a ++ sitemapUrls env b)%list.
Proof. unfold sitemapUrls. now rewrite split_app_sep, !filter_app. Qed.

Lemma launchedUrls_app (j k : list SchedEvent) :
  launchedUrls (j ++ k)%list = (launchedUrls j ++ launchedUrls k)%list.
Proof.
  induction j as [|[worker u | ms] j IH]; simpl; [reflexivity | |];
    now rewrite IH.
Qed.

(** What the dispatch loop keeps true about the order of its launches. *)
Lemma launch_order_invariant (urls : list string) (s : Sched) :
  reachable env urls s ->
  urls = (launchedUrls (journal s) ++ queue s)%list
  /\ nextWorker s = length (launchedUrls (journal s))
  /\ (forall worker u,
         workers s !! worker = Some u ->
         nth_error (launchedUrls (journal s)) worker = Some u).
Proof.
  induction 1 as [| s s' _ (Hq & Hn & Hw) Hstep].
  - cbn. split; [reflexivity |]. split; [reflexivity |].
    intros worker u H. rewrite lookup_empty in H. discriminate.
  - destruct Hstep as [s s' Hturn | s worker m Hin | s worker Hin
                       | s worker Hsome Hnot].
    + destruct (le_lt_dec (MAX_WORKERS env) (size (workers s))) as [Hfull | Hfree].
      * destruct (coordinatorTurn_full env _ _ Hturn Hfull)
          as (Hq' & Hw' & _ & Hj').
        rewrite Hq', Hw', Hj', launchedUrls_app. cbn [launchedUrls].
        rewrite app_nil_r. assert (Hn' : nextWorker s' = nextWorker s).
        { unfold coordinatorTurn in Hturn.
          destruct (queue s); [discriminate |].
          apply Nat.leb_le in Hfull. rewrite Hfull in Hturn.
          now injection Hturn as <-. }
        rewrite Hn'. auto.
      * destruct (coordinatorTurn_free env _ _ Hturn Hfree)
          as (u & Hq' & Hw' & _ & Hj').
        assert (Hn' : nextWorker s' = S (nextWorker s)).
        { unfold coordinatorTurn in Hturn.
          destruct (queue s); [discriminate |].
          assert (Hl : (MAX_WORKERS env <=? size (workers s))%nat = false)
            by (apply Nat.leb_gt; exact Hfree).
          rewrite Hl in Hturn. now injection Hturn as <-. }
        rewrite Hj', launchedUrls_app, Hw', Hn'. cbn [launchedUrls].
        split; [| split].
        -- rewrite <- app_assoc. cbn [app]. now rewrite <- Hq'.
        -- rewrite length_app. cbn [length]. lia.
        -- intros worker u' Hl.
           apply lookup_insert_Some in Hl as [[<- <-] | [Hne Hl]].
           ++ rewrite Hn, nth_error_app2 by lia.
              now rewrite Nat.sub_diag.
           ++ apply Hw in Hl.
              rewrite nth_error_app1; [exact Hl |].
              apply nth_error_Some. congruence.
    + unfold onMessage. destruct m as [[r|]|text]; cbn; auto.
    + cbn. auto.
    + cbn. split; [assumption |]. split; [assumption |].
      intros w0 u Hl. apply lookup_delete_Some in Hl as [_ Hl]. now apply Hw.
Qed.

Lemma idle_invariant (urls : list string) (s : Sched) :
  MAX_WORKERS env = 0 ->
  reachable env urls s ->
  queue s = urls /\ workers s = ∅ /\ alive s = ∅
  /\ launchedUrls (journal s) = [].
Proof.
  intros Hzero. induction 1 as [| s s' _ (Hq & Hw & Ha & Hj) Hstep].
  - cbn. auto.
  - destruct Hstep as [s s' Hturn | s worker m Hin | s worker Hin
                       | s worker Hsome Hnot].
    + assert (Hfull : MAX_WORKERS env <= size (workers s)) by lia.
      destruct (coordinatorTurn_full env _ _ Hturn Hfull)
        as (Hq' & Hw' & Ha' & Hj').
      rewrite Hq', Hw', Ha', Hj', launchedUrls_app, Hj. cbn. auto.
    + rewrite Ha in Hin. now apply elem_of_empty in Hin.
    + rewrite Ha in Hin. now apply elem_of_empty in Hin.
    + rewrite Hw, lookup_empty in Hsome. now destruct Hsome.
Qed.

Lemma find_exists {A : Type} (f : A -> bool) (l : list A) (x : A) :
  In x l -> f x = true -> exists y, find f l = Some y.
Proof.
  intros Hin Hf. destruct (find f l) as [y|] eqn:E; [now exists y |].
  now rewrite (find_none f l E x Hin) in Hf.
Qed.

End MoreSchedulerFacts.

(** X20: the list of tasks read from [sitemaps.txt] is made line by
    line: the tasks of a text are those of what precedes a line break
    followed by those of what follows it, so a final line break or an
    empty line adds nothing; and every task is an address that
    [new URL] accepts and that is not blank. *)
Theorem X20_sitemap_list_is_made_line_by_line (env : Env) (a b : string) :
  sitemapUrls env (a ++ String "010" b)%string
  = (sitemapUrls env a ++ sitemapUrls env b)%list
  /\ sitemapUrls env (a ++ String "010" "")%string = sitemapUrls env a
  /\ sitemapUrls env (a ++ String "010" (String "010" b))%string
     = sitemapUrls env (a ++ String "010" b)%string
  /\ (forall u, In u (sitemapUrls env a) ->
                urlHostname env u <> None /\ allWhite u = false).
Proof.
  split; [apply sitemapUrls_lines |].
  split; [rewrite sitemapUrls_lines; apply app_nil_r |].
  split.
  - rewrite !sitemapUrls_lines.
    change (String "010" b) with ("" ++ String "010" b)%string.
    now rewrite sitemapUrls_lines.
  - intros u H. unfold sitemapUrls in H.
    apply filter_In in H as [H Hhost]. apply filter_In in H as [_ Hblank].
    split.
    + intros E. rewrite E in Hhost. discriminate.
    + rewrite truthy_trim in Hblank. now apply negb_true_iff in Hblank.
Qed.

Lemma X20_sitemap_list_witness :
  urlHostname calmEnv "https://x.com/sitemap.xml" <> None
  /\ allWhite "https://x.com/sitemap.xml" = false.
Proof.
  apply (proj2 (proj2 (proj2 (X20_sitemap_list_is_made_line_by_line
                                calmEnv "https://x.com/sitemap.xml" "")))).
  lazy. left. reflexivity.
Defined.

(** X21: the dispatch loop launches the sitemaps in the order of the
    list, each one once: at any moment the URLs launched so far followed
    by those still waiting are the list it was given.  The workers are
    numbered in the order of their launch, and each entry of [workers]
    holds the URL its worker was launched for. *)
Theorem X21_launches_follow_the_list
        (env : Env) (urls : list string) (s : Sched) :
  reachable env urls s ->
  urls = (launchedUrls (journal s) ++ queue s)%list
  /\ nextWorker s = length (launchedUrls (journal s))
  /\ (forall worker u,
         workers s !! worker = Some u ->
         nth_error (launchedUrls (journal s)) worker = Some u).
Proof. apply launch_order_invariant. Qed.

Lemma X21_launches_witness :
  ["https://x.com/sitemap.xml"]
  = (launchedUrls (journal (afterFirstTurn calmEnv ["https://x.com/sitemap.xml"]))
       ++ queue (afterFirstTurn calmEnv ["https://x.com/sitemap.xml"]))%list.
Proof.
  eapply proj1.
  apply (X21_launches_follow_the_list calmEnv ["https://x.com/sitemap.xml"]).
  eapply reach_step; [apply reach_initial |].
  apply step_turn. reflexivity.
Defined.

(** X22: with [MAX_WORKERS] equal to zero the loop never launches
    anything: whatever happens, every sitemap is still waiting and no
    worker exists; each turn of the coordinator is a sleep. *)
Theorem X22_no_slot_no_launch (env : Env) (urls : list string) (s : Sched) :
  MAX_WORKERS env = 0 ->
  reachable env urls s ->
  queue s = urls /\ workers s = ∅ /\ alive s = ∅
  /\ launchedUrls (journal s) = [].
Proof. apply idle_invariant. Qed.

Lemma X22_no_slot_witness :
  queue (afterFirstTurn idleEnv ["https://x.com/sitemap.xml"])
  = ["https://x.com/sitemap.xml"].
Proof.
  eapply proj1.
  apply (X22_no_slot_no_launch idleEnv ["https://x.com/sitemap.xml"]).
  - reflexivity.
  - eapply reach_step; [apply reach_initial |].
    apply step_turn. reflexivity.
Defined.

(** X23: the summary step writes one file per result, in the order of
    the results, named [summary_<timestamp>.txt] in the directory of the
    result; what it writes is never [undefined]: it is one of the
    summary lines, and one that starts with the domain of the result. *)
Theorem X23_one_summary_file_per_result
        (env : Env) (timestamp : string) (rs : list DomainResult) :
  length (summaryWrites env timestamp rs) = length rs
  /\ (forall i r,
         nth_error rs i = Some r ->
         exists line,
           nth_error (summaryWrites env timestamp rs) i
           = Some (pathJoin env (outputDir r) ("summary_" ++ timestamp ++ ".txt"),
                   Some line)
           /\ startsWith line (domain r) = true
           /\ In line (map summaryLine rs)).
Proof.
  unfold summaryWrites. cbv zeta. split; [apply length_map |].
  intros i r Hi.
  assert (Hin : In (summaryLine r) (map summaryLine rs)).
  { apply in_map. eapply nth_error_In. exact Hi. }
  destruct (find_exists (fun s => startsWith s (domain r)) _ _ Hin
                        (summaryLine_own r)) as [line Hline].
  exists line. split.
  - erewrite map_nth_error by exact Hi. now rewrite Hline.
  - apply find_some in Hline as [H1 H2]. auto.
Qed.

Lemma X23_one_summary_file_witness :
  exists line,
    nth_error (summaryWrites calmEnv "2024-01-02T03-05-00-000Z"
                             [resultCom; resultCo]) 1
    = Some (pathJoin calmEnv (outputDir resultCo)
                     ("summary_" ++ "2024-01-02T03-05-00-000Z" ++ ".txt"),
            Some line)
    /\ startsWith line (domain resultCo) = true
    /\ In line (map summaryLine [resultCom; resultCo]).
Proof.
  apply (proj2 (X23_one_summary_file_per_result
                  calmEnv "2024-01-02T03-05-00-000Z" [resultCom; resultCo])).
  reflexivity.
Defined.

(** X24: a result gets its own summary line whenever no line of an
    earlier result starts with its domain; the first result always
    does. *)
Theorem X24_own_summary_line_without_earlier_prefix
        (env : Env) (timestamp : string)
        (before after : list DomainResult) (r : DomainResult) :
  Forall (fun r' => startsWith (summaryLine r') (domain r) = false) before ->
  nth_error (summaryWrites env timestamp (before ++ r :: after)%list)
            (length before)
  = Some (pathJoin env (outputDir r) ("summary_" ++ timestamp ++ ".txt"),
          Some (summaryLine r)).
Proof.
  intros H. unfold summaryWrites. cbv zeta.
  erewrite map_nth_error.
  - now rewrite (find_own_line before after r H).
  - rewrite nth_error_app2 by lia. now rewrite Nat.sub_diag.
Qed.

Lemma X24_own_summary_line_witness :
  nth_error (summaryWrites calmEnv "2024-01-02T03-05-00-000Z"
                           ([resultCo] ++ resultCom :: [])%list)
            (length [resultCo])
  = Some (pathJoin calmEnv (outputDir resultCom)
                   ("summary_" ++ "2024-01-02T03-05-00-000Z" ++ ".txt"),
          Some (summaryLine resultCom)).
Proof.
  apply X24_own_summary_line_without_earlier_prefix.
  constructor; [reflexivity | constructor].
Defined.

Section CountFacts.
Variable env : Env.

Lemma success_keyword_flag (sitemapUrl : string) (w w' : World)
      (r : DomainResult) :
  processSitemap env sitemapUrl w = (Ok (Some r), w') ->
  negb (String.eqb (processedKeyword r) "None") = (0 <? keywordCount r)%nat.
Proof.
  intros H.
  destruct (processSitemap_success env _ _ _ _ H)
    as (t & data & result & locs & _ & _ & _ & Hk & _ & Hcase).
  rewrite Hk. destruct Hcase as [[Hnil ->] | (Hne & Hin & _)].
  - now rewrite Hnil.
  - apply keywords_shape in Hin as (_ & _ & Hno).
    apply String.eqb_neq in Hno. rewrite Hno.
    destruct (keywords (classifyLocs locs)); [congruence | reflexivity].
Qed.

End CountFacts.

(** X25: when every collected result is a [Success] of [processSitemap],
    the number of articles announced at the end of [main] is the number
    of results with at least one keyword. *)
Theorem X25_announced_articles_count_domains_with_keywords
        (env : Env) (rs : list DomainResult) :
  Forall (fun r => exists sitemapUrl w w',
              processSitemap env sitemapUrl w = (Ok (Some r), w')) rs ->
  totalArticles rs
  = length (filter (fun r => (0 <? keywordCount r)%nat) rs).
Proof.
  unfold totalArticles. induction 1 as [|r rs (u & w & w' & Hr) _ IH];
    [reflexivity |].
  simpl. rewrite (success_keyword_flag env _ _ _ _ Hr).
  destruct (0 <? keywordCount r)%nat; simpl; now rewrite IH.
Qed.

Lemma X25_announced_articles_witness :
  totalArticles [mkDomainResult "x.com" "output/x.com_2024-01-02T03-04-05-678Z"
                                1 1 "Plumbing Repair NJ"]
  = length (filter (fun r => (0 <? keywordCount r)%nat)
                   [mkDomainResult "x.com" "output/x.com_2024-01-02T03-04-05-678Z"
                                   1 1 "Plumbing Repair NJ"]).
Proof.
  apply (X25_announced_articles_count_domains_with_keywords calmEnv).
  constructor; [| constructor].
  exists "https://x.com/sitemap.xml", startWorld,
    (snd (processSitemap calmEnv "https://x.com/sitemap.xml" startWorld)).
  reflexivity.
Defined.
